(** * synonyms.py: the CheBI / PubChem table pipeline

    A shallow embedding of [src/synonyms.py].  The script is a handful of
    functions that read delimited files with pandas, transform the frame in
    memory and write a CSV (or append to an sqlite table).  The embedding
    keeps that shape: a [World] holds the files, the sqlite stores and the
    open connections; every function of the script is a computation in the
    state-and-exception monad [M] over it, and the pandas calls it makes are
    the primitives of the first part of this file. *)

From Stdlib Require Import Ascii.
From stdpp Require Import gmap strings list sorting pretty.

#[local] Set Warnings "-clear-no-such-hyp".

(** ** Cells

    A cell of a parsed table.  [pd.read_csv] turns a field into a number
    when the whole column parses as numbers, into NaN when the field is
    empty (or one of the NA spellings), and keeps it as text otherwise.
    Numeric cells are modelled by their integer value: numpy's distinction
    between int64 and an integral float64 is not tracked, and fractional
    numbers and booleans are outside the model.  Text is modelled as a
    string of ASCII characters. *)

Inductive value : Type :=
  | VStr (s : string)
  | VInt (z : Z)
  | VNaN.

Global Instance value_eq_dec : EqDecision value.
Proof. solve_decision. Defined.

Definition value_encode (v : value) : string + Z + unit :=
  match v with
  | VStr s => inl (inl s)
  | VInt z => inl (inr z)
  | VNaN => inr tt
  end.

Definition value_decode (x : string + Z + unit) : value :=
  match x with
  | inl (inl s) => VStr s
  | inl (inr z) => VInt z
  | inr _ => VNaN
  end.

Global Instance value_countable : Countable value.
Proof.
  refine (inj_countable' value_encode value_decode _).
  by intros [].
Defined.

(** Python's truth value of a cell, as tested by [if x:].  NaN is a non-zero
    float, hence true. *)
Definition truthy (v : value) : bool :=
  match v with
  | VStr s => negb (bool_decide (s = ""))
  | VInt z => negb (bool_decide (z = 0%Z))
  | VNaN => true
  end.

(** [str(x)]. *)
Definition str (v : value) : string :=
  match v with
  | VStr s => s
  | VInt z => pretty z
  | VNaN => "nan"
  end.

(** ** Strings *)

Definition is_lower (c : ascii) : bool :=
  let n := nat_of_ascii c in (97 <=? n)%nat && (n <=? 122)%nat.

Definition is_upper (c : ascii) : bool :=
  let n := nat_of_ascii c in (65 <=? n)%nat && (n <=? 90)%nat.

Definition upper_char (c : ascii) : ascii :=
  if is_lower c then ascii_of_nat (nat_of_ascii c - 32) else c.

Definition lower_char (c : ascii) : ascii :=
  if is_upper c then ascii_of_nat (nat_of_ascii c + 32) else c.

Fixpoint string_map (f : ascii → ascii) (s : string) : string :=
  match s with
  | EmptyString => EmptyString
  | String c s' => String (f c) (string_map f s')
  end.

(** [s.upper()] and [s.lower()] *)
Definition upper : string → string := string_map upper_char.
Definition lower : string → string := string_map lower_char.

(** [needle in s] on strings *)
Fixpoint contains (needle s : string) : bool :=
  String.prefix needle s ||
  match s with
  | EmptyString => false
  | String _ s' => contains needle s'
  end.

(** ** Exceptions and the two monads *)

Inductive exn : Type :=
  | FileNotFoundError
  | EmptyDataError
  | ParserError
  | KeyError
  | ValueError
  | TypeError
  | AttributeError
  | OperationalError.

Global Instance exn_eq_dec : EqDecision exn.
Proof. solve_decision. Defined.

Inductive outcome (A : Type) : Type :=
  | Return (a : A)
  | Raise (e : exn).
Global Arguments Return {A} a.
Global Arguments Raise {A} e.

Global Instance outcome_ret : MRet outcome := λ A a, Return a.
Global Instance outcome_bind : MBind outcome := λ A B f c,
  match c with
  | Return a => f a
  | Raise e => Raise e
  end.

(** [for x in xs: s = body(s, x)], stopping at the first exception. *)
Fixpoint for_each {S X : Type} (body : S → X → outcome S) (s : S) (xs : list X)
  : outcome S :=
  match xs with
  | [] => Return s
  | x :: xs' => s' ← body s x; for_each body s' xs'
  end.

(** ** Tables *)

(** The content of a delimited file, after field parsing: the header line
    (empty for the raw dumps that have none) and the parsed records. *)
Record csv : Type := CSV {
  header : list string;
  records : list (list value)
}.

(** A row of a frame as [iterrows] yields it: a Series indexed by the column
    names. *)
Record Series : Type := MkSeries {
  s_index : list string;
  s_values : list value
}.

(** A frame: the column names, and the rows each under its index label. *)
Record DataFrame : Type := DF {
  columns : list string;
  rows : list (Z * list value)
}.

Global Instance csv_eq_dec : EqDecision csv.
Proof. solve_decision. Defined.
Global Instance DataFrame_eq_dec : EqDecision DataFrame.
Proof. solve_decision. Defined.

(** Position of the first column called [label]. *)
Fixpoint get_loc (label : string) (cols : list string) : option nat :=
  match cols with
  | [] => None
  | c :: cols' => if decide (c = label) then Some 0%nat else S <$> get_loc label cols'
  end.

(** The cell at position [i]; a short record is filled with NaN, as
    [read_csv] does. *)
Definition cell (i : nat) (cells : list value) : value := default VNaN (cells !! i).

(** [row[label]] *)
Definition getitem (row : Series) (label : string) : outcome value :=
  match get_loc label (s_index row) with
  | Some i => Return (cell i (s_values row))
  | None => Raise KeyError
  end.

(** [df.iterrows()].  The generator reads [df.index] and [df.values] once,
    when it starts, so the pairs it yields are those of the frame as it was
    then: an in-place [drop] in the loop body replaces the frame's data and
    does not change what is iterated. *)
Definition iterrows (df : DataFrame) : list (Z * Series) :=
  (λ r, (r.1, MkSeries (columns df) r.2)) <$> rows df.

(** [df[label]] as the list of its cells *)
Definition getcol (df : DataFrame) (label : string) : outcome (list value) :=
  match get_loc label (columns df) with
  | Some i => Return (cell i ∘ snd <$> rows df)
  | None => Raise KeyError
  end.

(** [df[label] = vals]: overwrite the column if there is one, else add it as
    the last column.  The lengths must agree. *)
Definition setcol (df : DataFrame) (label : string) (vals : list value)
  : outcome DataFrame :=
  if decide (length vals = length (rows df)) then
    match get_loc label (columns df) with
    | Some i =>
        Return (DF (columns df)
                   (zip_with (λ r v, (r.1, <[i:=v]> r.2)) (rows df) vals))
    | None =>
        Return (DF (columns df ++ [label])
                   (zip_with (λ r v, (r.1, r.2 ++ [v])) (rows df) vals))
    end
  else Raise ValueError.

(** [df.drop(index=label, inplace=True)]: remove every row under that label;
    KeyError when there is none. *)
Definition drop_index (label : Z) (df : DataFrame) : outcome DataFrame :=
  if decide (label ∈ (fst <$> rows df)) then
    Return (DF (columns df) (filter (λ r, r.1 ≠ label) (rows df)))
  else Raise KeyError.

(** [df.drop(labels, inplace=True)] with a list of index labels *)
Definition drop_indices (labels : list Z) (df : DataFrame) : outcome DataFrame :=
  if decide (labels ⊆ (fst <$> rows df)) then
    Return (DF (columns df) (filter (λ r, r.1 ∉ labels) (rows df)))
  else Raise KeyError.

(** Keep the cells whose column is not in [labels]. *)
Fixpoint drop_cells (labels cols : list string) (cells : list value) : list value :=
  match cols, cells with
  | c :: cols', v :: cells' =>
      if decide (c ∈ labels) then drop_cells labels cols' cells'
      else v :: drop_cells labels cols' cells'
  | _, _ => []
  end.

(** [df.drop(columns=labels, inplace=True)] *)
Definition drop_columns (labels : list string) (df : DataFrame) : outcome DataFrame :=
  if decide (labels ⊆ columns df) then
    Return (DF (filter (λ c, c ∉ labels) (columns df))
               ((λ r, (r.1, drop_cells labels (columns df) r.2)) <$> rows df))
  else Raise KeyError.

(** [df.columns = names] *)
Definition set_columns (names : list string) (df : DataFrame) : outcome DataFrame :=
  if decide (length names = length (columns df)) then Return (DF names (rows df))
  else Raise ValueError.

Definition is_int (v : value) : bool :=
  match v with VInt _ => true | _ => false end.

Definition is_str (v : value) : bool :=
  match v with VStr _ => true | _ => false end.

(** [col.astype('int')].  A column of integers is returned as it is.  A
    column with a missing cell is a float column and NaN has no integer
    value; a column with a text cell is an object column that holds at least
    one text that is not a number: both raise ValueError. *)
Definition astype_int (col : list value) : outcome (list value) :=
  if forallb is_int col then Return col else Raise ValueError.

(** The order [sort_values] puts cells in: numbers ascending, text in
    lexicographic order, NaN last ([na_position='last']).  numpy cannot
    compare a number with a text, see [sort_values]. *)
Definition value_leb (a b : value) : bool :=
  match a, b with
  | _, VNaN => true
  | VNaN, _ => false
  | VInt x, VInt y => bool_decide (x ≤ y)%Z
  | VInt _, VStr _ => true
  | VStr _, VInt _ => false
  | VStr s, VStr t => String.leb s t
  end.

Definition row_le (i : nat) (r1 r2 : Z * list value) : Prop :=
  value_leb (cell i r1.2) (cell i r2.2) = true.

Global Instance row_le_dec i r1 r2 : Decision (row_le i r1 r2).
Proof. unfold row_le. apply _. Defined.

(** [df.sort_values(by=label, inplace=True)].  The rows keep their index
    labels.  pandas sorts with numpy's quicksort, which leaves the order of
    rows with equal keys unspecified; the merge sort here fixes one such
    order, and nothing below depends on which. *)
Definition sort_values (label : string) (df : DataFrame) : outcome DataFrame :=
  match get_loc label (columns df) with
  | Some i =>
      let col := cell i ∘ snd <$> rows df in
      if existsb is_int col && existsb is_str col then Raise TypeError
      else Return (DF (columns df) (merge_sort (row_le i) (rows df)))
  | None => Raise KeyError
  end.

(** [col.str.upper()].  The [.str] accessor is refused (AttributeError) on a
    column that is not of object dtype.  [read_csv] gives a column the object
    dtype when the frame has no row or when the column holds a text; a column
    of numbers and empty fields only is int64 or float64.  On an object
    column a text is uppercased and anything else becomes NaN. *)
Definition is_object_dtype (col : list value) : bool :=
  bool_decide (col = []) || existsb is_str col.

Definition upper_cell (v : value) : value :=
  match v with VStr s => VStr (upper s) | _ => VNaN end.

Definition str_upper (col : list value) : outcome (list value) :=
  if is_object_dtype col then Return (upper_cell <$> col) else Raise AttributeError.

(** ** The world: files, sqlite stores, open connections *)

(** A table of an sqlite database.  NULL is written [VNaN], as pandas
    stores a missing cell. *)
Record table : Type := Table {
  tcols : list string;
  trows : list (list value)
}.

Record World : Type := MkWorld {
  files : gmap string csv;
  stores : gmap string (gmap string table);
  handles : list string
}.

Definition M (A : Type) : Type := World → outcome A * World.

Definition ret {A} (a : A) : M A := λ w, (Return a, w).

Definition bind {A B} (c : M A) (k : A → M B) : M B := λ w,
  match c w with
  | (Return a, w') => k a w'
  | (Raise e, w') => (Raise e, w')
  end.

Definition lift {A} (o : outcome A) : M A := λ w, (o, w).

Notation "x <- c ;; k" := (bind c (λ x, k))
  (at level 100, c at next level, right associativity,
   format "'[v' x  <-  c  ;; '/' k ']'").
Notation "c ;; k" := (bind c (λ _, k))
  (at level 100, k at level 200, right associativity,
   format "'[v' c  ;; '/' k ']'").

(** Fill a short record with NaN up to [n] fields. *)
Definition pad (n : nat) (cells : list value) : list value :=
  cells ++ replicate (n - length cells) VNaN.

(** A default RangeIndex: the rows under the labels 0, 1, 2, ... *)
Definition range_index (recs : list (list value)) : list (Z * list value) :=
  imap (λ i r, (Z.of_nat i, r)) recs.

Definition parse (names : list string) (recs : list (list value)) : outcome DataFrame :=
  if decide (names = []) then Raise EmptyDataError
  else if forallb (λ r, length r <=? length names)%nat recs
  then Return (DF names (range_index (pad (length names) <$> recs)))
  else Raise ParserError.

(** [pd.read_csv(path)] (also [delimiter="\t"], and [dd.read_csv]): the
    first line names the columns.  pandas renames an empty or repeated
    column name; that is not modelled, headers are taken as they are. *)
Definition read_csv (path : string) : M DataFrame := λ w,
  match files w !! path with
  | None => (Raise FileNotFoundError, w)
  | Some f => (parse (header f) (records f), w)
  end.

(** [pd.read_csv(path, names=names)]: the file has no header line, every
    line is a record.  A file without any line raises EmptyDataError. *)
Definition read_csv_names (path : string) (names : list string) : M DataFrame := λ w,
  match files w !! path with
  | None => (Raise FileNotFoundError, w)
  | Some f =>
      if decide (records f = []) then (Raise EmptyDataError, w)
      else (parse names (records f), w)
  end.

(** [df.to_csv(path, index=index)]: header line, then the rows; with
    [index=True] (the default of pandas) a first column without a name
    carries the index labels. *)
Definition csv_of (index : bool) (df : DataFrame) : csv :=
  if index then CSV ("" :: columns df) ((λ r, VInt r.1 :: r.2) <$> rows df)
  else CSV (columns df) (snd <$> rows df).

Definition to_csv (df : DataFrame) (path : string) (index : bool) : M unit := λ w,
  (Return (), MkWorld (<[path := csv_of index df]> (files w)) (stores w) (handles w)).

(** [sqlite3.connect(path)]: the database file is created when absent. *)
Definition connect (path : string) : M string := λ w,
  (Return path,
   MkWorld (files w) (<[path := default ∅ (stores w !! path)]> (stores w))
           (path :: handles w)).

(** Remove the first occurrence of [h]. *)
Fixpoint remove_first (h : string) (hs : list string) : list string :=
  match hs with
  | [] => []
  | h' :: hs' => if decide (h' = h) then hs' else h' :: remove_first h hs'
  end.

(** [conn.close()] *)
Definition close (conn : string) : M unit := λ w,
  (Return (), MkWorld (files w) (stores w) (remove_first conn (handles w))).

(** The record of a frame row in the column order of the table; a table
    column the frame does not have is NULL. *)
Definition sql_row (tc dc : list string) (cells : list value) : list value :=
  (λ c, match get_loc c dc with Some i => cell i cells | None => VNaN end) <$> tc.

(** [df.to_sql(name, conn, if_exists='append', index=False)].  The table is
    created with the columns of the frame when the database has none of that
    name.  Then the rows are inserted, if there are any, under the column
    names of the frame: sqlite raises OperationalError when the table lacks
    one of them.  No row already in the table is touched. *)
Definition to_sql (df : DataFrame) (name : string) (conn : string) : M unit := λ w,
  let db := default ∅ (stores w !! conn) in
  let t := default (Table (columns df) []) (db !! name) in
  let created := MkWorld (files w) (<[conn := <[name := t]> db]> (stores w)) (handles w) in
  if decide (rows df = []) then (Return (), created)
  else if decide (columns df ⊆ tcols t) then
    let t' := Table (tcols t) (trows t ++ (sql_row (tcols t) (columns df) ∘ snd <$> rows df)) in
    (Return (), MkWorld (files w) (<[conn := <[name := t']> db]> (stores w)) (handles w))
  else (Raise OperationalError, created).

(** [needle in x]: a float or an integer is not iterable. *)
Definition py_in (needle : string) (x : value) : outcome bool :=
  match x with
  | VStr s => Return (contains needle s)
  | _ => Raise TypeError
  end.

(** [df.index[mask]] for a boolean [mask]: the labels of the rows where it
    is true. *)
Definition index_where (mask : list bool) (df : DataFrame) : list Z :=
  fst ∘ fst <$> filter (λ p, p.2 = true) (zip (rows df) mask).

(** [col != x], cell by cell; NaN differs from everything. *)
Definition ne (col : list value) (x : value) : list bool :=
  (λ v, bool_decide (v ≠ x)) <$> col.

(** [if x:] on the result of [dict.get], which is None without the key. *)
Definition truth (x : option value) : bool :=
  match x with
  | Some v => truthy v
  | None => false
  end.

(** ** The script

    The functions of [synonyms.py] under their own names.  A local variable
    that the source updates in place is rebound; a dictionary is a [gmap], a
    set a [gset].  A dictionary key is compared as a [value]: whether two
    missing keys coincide in Python depends on the identity of the NaN
    objects, which is not modelled, and no theorem below is about a missing
    join key being found. *)

Module synonyms.

Definition decompressMass : M unit :=
  mass <- read_csv_names "./cid-mass"
            ["ID"; "Formula"; "Monoisotopic Mass"; "Exact Mass"] ;;
  mass <- lift (drop_columns ["Monoisotopic Mass"] mass) ;;
  mass <- lift (drop_columns ["Exact Mass"] mass) ;;
  to_csv mass "./cid-mass.csv" false.

Definition decompressSynonyms : M unit :=
  synonyms <- read_csv_names "./cid-synonyms" ["ID"; "Synonym"] ;;
  to_csv synonyms "./cid-synonyms.csv" false.

Definition decompressCheBINames : M unit :=
  names <- read_csv "./names_3star.tsv" ;;
  names <- lift (drop_columns ["ID"; "TYPE"; "SOURCE"; "ADAPTED"; "LANGUAGE"] names) ;;
  names <- lift (set_columns ["Compound ID"; "Name"] names) ;;
  ids <- lift (getcol names "Compound ID" ≫= astype_int) ;;
  names <- lift (setcol names "Compound ID" ids) ;;
  names <- lift (sort_values "Compound ID" names) ;;
  to_csv names "./chebiNames.csv" false.

Definition chemical_data_url : string :=
  "https://ftp.ebi.ac.uk/pub/databases/chebi/Flat_file_tab_delimited/chemical_data.tsv".

Definition database_accession_url : string :=
  "https://ftp.ebi.ac.uk/pub/databases/chebi/Flat_file_tab_delimited/database_accession.tsv".

Definition decompressCheBIFormulas : M unit :=
  formulas <- read_csv chemical_data_url ;;
  formulas <- lift (drop_columns ["ID"; "SOURCE"] formulas) ;;
  formulas <- lift (set_columns ["Compound ID"; "Type"; "Formula"] formulas) ;;
  type <- lift (getcol formulas "Type") ;;
  formulas <- lift (drop_indices (index_where (ne type (VStr "FORMULA")) formulas) formulas) ;;
  formulas <- lift (drop_columns ["Type"] formulas) ;;
  ids <- lift (getcol formulas "Compound ID" ≫= astype_int) ;;
  formulas <- lift (setcol formulas "Compound ID" ids) ;;
  formulas <- lift (sort_values "Compound ID" formulas) ;;
  to_csv formulas "./chebiFormulas.csv" false.

(** The source indexes with a one-element list, [cas.index[[mask]]]; numpy
    (before 1.23) reads such a list as the tuple [(mask,)], which is
    [cas.index[mask]]. *)
Definition decompressCheBICAS : M unit :=
  cas <- read_csv database_accession_url ;;
  cas <- lift (drop_columns ["ID"; "SOURCE"] cas) ;;
  cas <- lift (set_columns ["Compound ID"; "Type"; "Accession Number"] cas) ;;
  type <- lift (getcol cas "Type") ;;
  cas <- lift (drop_indices (index_where (ne type (VStr "CAS Registry Number")) cas) cas) ;;
  cas <- lift (drop_columns ["Type"] cas) ;;
  ids <- lift (getcol cas "Compound ID" ≫= astype_int) ;;
  cas <- lift (setcol cas "Compound ID" ids) ;;
  cas <- lift (sort_values "Compound ID" cas) ;;
  to_csv cas "./chebiCAS.csv" false.

Definition makeDatabase (input output outputName : string) : M unit :=
  data <- read_csv input ;;
  chemicals <- connect output ;;
  to_sql data outputName chemicals ;;
  close chemicals.

Definition removeDuplicates (input : string) : M unit :=
  data <- read_csv input ;;
  st <- lift (for_each (λ (st : DataFrame * gset string) (it : Z * Series),
                 let '(data, names) := st in
                 let '(index, row) := it in
                 name ← getitem row "Name";
                 let lowered := lower (str name) in
                 if decide (lowered ∈ names) then
                   data' ← drop_index index data; Return (data', names)
                 else Return (data, names ∪ {[lowered]}))
               (data, ∅) (iterrows data)) ;;
  to_csv st.1 "./chebiChemicalsCASSet.csv" false.

Definition lowercaseNames (input : string) : M unit :=
  data <- read_csv input ;;
  name <- lift (getcol data "Name" ≫= str_upper) ;;
  data <- lift (setcol data "Name" name) ;;
  to_csv data "./chebiChemicalsCASSetUPPER.csv" false.

(** The loop that fills a lookup dictionary:
    [for index, row in t.iterrows(): d[row[key]] = row[val]]. *)
Definition build_index (key val : string) (t : DataFrame) : outcome (gmap value value) :=
  for_each (λ (d : gmap value value) (it : Z * Series),
              k ← getitem it.2 key;
              v ← getitem it.2 val;
              Return (<[k := v]> d))
           ∅ (iterrows t).

(** The state of the third loop of [mergeCSVCheBI]. *)
Record lists : Type := Lists {
  formulaList : list value;
  casList : list value;
  missing : list value
}.

Definition merge_row (formulas cas : gmap value value) (st : lists) (it : Z * Series)
  : outcome lists :=
  let row := it.2 in
  id ← getitem row "Compound ID";
  let chosenFormula := formulas !! id in
  st ← (if truth chosenFormula then
          Return (Lists (formulaList st ++ [default VNaN chosenFormula])
                        (casList st) (missing st))
        else
          name ← getitem row "Name";
          Return (Lists (formulaList st ++ [VStr "MISSING"])
                        (casList st) (missing st ++ [name])));
  id ← getitem row "Compound ID";
  let chosenCAS := cas !! id in
  if truth chosenCAS then
    Return (Lists (formulaList st) (casList st ++ [default VNaN chosenCAS]) (missing st))
  else
    Return (Lists (formulaList st) (casList st ++ [VStr "MISSING"]) (missing st)).

Definition mergeCSVCheBI : M unit :=
  formulaCSV <- read_csv "./chebiFormulas.csv" ;;
  formulas <- lift (build_index "Compound ID" "Formula" formulaCSV) ;;
  casCSV <- read_csv "./chebiCAS.csv" ;;
  cas <- lift (build_index "Compound ID" "Accession Number" casCSV) ;;
  synonyms <- read_csv "./chebiNames.csv" ;;
  st <- lift (for_each (merge_row formulas cas) (Lists [] [] []) (iterrows synonyms)) ;;
  synonyms <- lift (setcol synonyms "Formula" (formulaList st)) ;;
  synonyms <- lift (setcol synonyms "CAS" (casList st)) ;;
  to_csv synonyms "./chebiChemicalsCAS.csv" false.

Definition filter : M unit :=
  batch <- read_csv "./cid-synonyms01.csv" ;;
  batch <- lift (for_each (λ (batch : DataFrame) (it : Z * Series),
                    let '(index, row) := it in
                    synonym ← getitem row "Synonym";
                    hit ← py_in "CHEMBL" synonym;
                    if (hit : bool) then drop_index index batch else Return batch)
                  batch (iterrows batch)) ;;
  to_csv batch "./cid-synonyms01.csv" true.

End synonyms.

(** * Specification vocabulary *)

(** A file that [read_csv] accepts: it has a header, and no record has more
    fields than the header has names. *)
Definition well_formed (f : csv) : Prop :=
  header f ≠ [] ∧ Forall (λ r, length r ≤ length (header f)) (records f).

Global Instance well_formed_dec f : Decision (well_formed f).
Proof. unfold well_formed. apply _. Defined.

(** The frame [read_csv] makes of a well-formed file. *)
Definition frame_of (f : csv) : DataFrame :=
  DF (header f) (range_index (pad (length (header f)) <$> records f)).

(** ** First occurrences *)

Section first_occurrences.
Context {A : Type} (key : A → string).

(** The rows a scan with a set of seen keys keeps. *)
Fixpoint keep_unseen (seen : gset string) (l : list A) : list A :=
  match l with
  | [] => []
  | x :: l' =>
      if decide (key x ∈ seen) then keep_unseen seen l'
      else x :: keep_unseen (seen ∪ {[key x]}) l'
  end.

(** The rows whose key is the key of no earlier row, in their order. *)
Definition first_occurrences (l : list A) : list A :=
  snd <$> base.filter (λ p, key p.2 ∉ key <$> take p.1 l) (imap pair l).

End first_occurrences.

(** The key under which [removeDuplicates] remembers a record whose Name is
    at position [i]. *)
Definition lowered (i : nat) (r : list value) : string := lower (str (cell i r)).


(** ** Sample inputs *)

Definition world_of (fs : list (string * csv)) : World :=
  MkWorld (list_to_map fs) ∅ [].

Definition water_csv : csv :=
  CSV ["Name"] [[VStr "Water"]; [VStr "WATER"]; [VStr "Salt"]].

Definition water_world : World := world_of [("names.csv", water_csv)].

Definition nan_csv : csv :=
  CSV ["Compound ID"; "Name"]
      [[VInt 1; VStr "NAN"]; [VInt 2]; [VInt 3; VNaN]; [VInt 4; VStr "Nan"]].

Definition nan_world : World := world_of [("names.csv", nan_csv)].

(** The cell [mergeCSVCheBI] writes for the join key [k] looked up in the
    dictionary [d]. *)
Definition merge_cell (d : gmap value value) (k : value) : value :=
  if truth (d !! k) then default VNaN (d !! k) else VStr "MISSING".

(** The dictionary after [d[key(r)] = val(r)] for each row in turn. *)
Definition index_of_rows (ik iv : nat) (rs : list (Z * list value))
    (d : gmap value value) : gmap value value :=
  foldl (λ d r, <[cell ik r.2 := cell iv r.2]> d) d rs.

Definition dup_formulas_csv : csv :=
  CSV ["Compound ID"; "Formula"]
      [[VInt 1; VStr "H2O"]; [VInt 1; VStr "CO2"]; [VInt 2; VStr "NaCl"]].

Definition names_csv : csv :=
  CSV ["Compound ID"; "Name"] [[VInt 1; VStr "A"]].

Definition no_formulas_csv : csv := CSV ["Compound ID"; "Formula"] [].

Definition cas_csv : csv :=
  CSV ["Compound ID"; "Accession Number"] [[VInt 1; VStr "50-00-0"]].

Definition merge_world : World :=
  world_of [("./chebiNames.csv", names_csv);
            ("./chebiFormulas.csv", no_formulas_csv);
            ("./chebiCAS.csv", cas_csv)].

Definition zero_formula_csv : csv :=
  CSV ["Compound ID"; "Formula"] [[VInt 1; VInt 0]].

Definition zero_world : World :=
  world_of [("./chebiNames.csv", names_csv);
            ("./chebiFormulas.csv", zero_formula_csv);
            ("./chebiCAS.csv", cas_csv)].

(** ** Tables of a store *)

Definition table_of (w : World) (store name : string) : option table :=
  stores w !! store ≫= λ db, db !! name.

Definition table_rows (w : World) (store name : string) : list (list value) :=
  from_option trows [] (table_of w store name).

Definition two_rows_csv : csv :=
  CSV ["Compound ID"; "Name"] [[VInt 1; VStr "A"]; [VInt 2; VStr "B"]].

Definition two_rows_world : World := world_of [("in.csv", two_rows_csv)].

(** A store whose table [t] has another column than the file. *)
Definition mismatch_world : World :=
  MkWorld {["in.csv" := two_rows_csv]}
          {["db" := {["t" := Table ["Formula"] []]}]}
          [].





(** Whether [filter] drops a row with this Synonym. *)
Definition is_chembl (v : value) : bool :=
  match v with
  | VStr s => contains "CHEMBL" s
  | _ => false
  end.

Definition synonyms01_csv : csv :=
  CSV ["ID"; "Synonym"] [[VInt 7; VStr "CHEMBL123"]; [VInt 7; VStr "ethanol"]].

Definition synonyms01_world : World :=
  world_of [("./cid-synonyms01.csv", synonyms01_csv)].

(** ** Sorted integer columns *)

(** A column of integers in non-decreasing order. *)
Definition ascending_ints (col : list value) : Prop :=
  ∃ ks : list Z, col = VInt <$> ks ∧ Sorted Z.le ks.

(** What a Decompressor is to guarantee: whenever [f] returns, the file it
    wrote at [path] has the join key [key] as a column of integers in
    non-decreasing order. *)
Definition sorted_by_key (f : M ()) (path key : string) : Prop :=
  ∀ w w', f w = (Return (), w') →
    ∃ out i, files w' !! path = Some out
             ∧ get_loc key (header out) = Some i
             ∧ ascending_ints (cell i <$> records out).

Definition int_of (v : value) : Z :=
  match v with VInt z => z | _ => 0%Z end.

(** A raw synonym dump whose IDs go down. *)
Definition unsorted_synonyms_csv : csv :=
  CSV [] [[VInt 2; VStr "ethanol"]; [VInt 1; VStr "water"]].

Definition unsorted_world : World :=
  world_of [("./cid-synonyms", unsorted_synonyms_csv)].

Definition names_3star_csv : csv :=
  CSV ["ID"; "COMPOUND_ID"; "TYPE"; "SOURCE"; "NAME"; "ADAPTED"; "LANGUAGE"]
      [[VInt 1; VInt 7; VStr "NAME"; VStr "ChEBI"; VStr "ethanol"; VStr "F"; VStr "en"];
       [VInt 2; VInt 3; VStr "NAME"; VStr "ChEBI"; VStr "water"; VStr "F"; VStr "en"]].

Definition names_3star_world : World :=
  world_of [("./names_3star.tsv", names_3star_csv)].

(** ** Further sample inputs *)

Definition missing_synonym_csv : csv :=
  CSV ["ID"; "Synonym"] [[VInt 7; VStr "CHEMBL123"]; [VInt 8; VNaN]].

Definition missing_synonym_world : World :=
  world_of [("./cid-synonyms01.csv", missing_synonym_csv)].

Definition no_name_csv : csv := CSV ["Compound ID"] [[VInt 1]].

Definition no_name_world : World := world_of [("names.csv", no_name_csv)].

Definition distinct_names_csv : csv :=
  CSV ["Compound ID"; "Name"] [[VInt 1; VStr "Water"]; [VInt 2; VStr "Salt"]].

Definition distinct_names_world : World := world_of [("names.csv", distinct_names_csv)].

(** A store with the table [t] of [mismatch_world] and a second table. *)
Definition two_tables_world : World :=
  MkWorld {["in.csv" := two_rows_csv]}
          {["db" := {["t" := Table ["Compound ID"; "Name"] [[VInt 9; VStr "Z"]];
                      "u" := Table ["Formula"] [[VStr "H2O"]]]};
            "other.db" := {["t" := Table ["Name"] []]}]}
          [].

Definition joined_world : World :=
  world_of [("./chebiNames.csv", names_csv);
            ("./chebiFormulas.csv", dup_formulas_csv);
            ("./chebiCAS.csv", cas_csv)].

(** ** What a stage may change *)

(** A computation that leaves the world as it is. *)
Definition reads_only {A} (c : M A) : Prop := ∀ w, (c w).2 = w.

(** A computation that changes at most the file at [path], and changes
    nothing at all when it raises. *)
Definition writes_only (path : string) (c : M ()) : Prop :=
  ∀ w o w', c w = (o, w') →
    stores w' = stores w
    ∧ handles w' = handles w
    ∧ (∀ p, p ≠ path → files w' !! p = files w !! p)
    ∧ (∀ e, o = Raise e → w' = w).

(** ** The layout of the ChEBI dumps *)








(** * Reasoning about the embedding *)

(** ** The monads *)

Lemma outcome_bind_Return {A B} (o : outcome A) (f : A → outcome B) b :
  o ≫= f = Return b → ∃ a, o = Return a ∧ f a = Return b.
Proof. destruct o as [a|e]; simpl; [eauto | discriminate]. Qed.

Lemma bind_Return {A B} (c : M A) (k : A → M B) w a w' :
  c w = (Return a, w') → bind c k w = k a w'.
Proof. unfold bind. by intros ->. Qed.

Lemma bind_Raise {A B} (c : M A) (k : A → M B) w e w' :
  c w = (Raise e, w') → bind c k w = (Raise e, w').
Proof. unfold bind. by intros ->. Qed.

Lemma bind_inv {A B} (c : M A) (k : A → M B) w b w2 :
  bind c k w = (Return b, w2) →
  ∃ a w1, c w = (Return a, w1) ∧ k a w1 = (Return b, w2).
Proof.
  unfold bind. destruct (c w) as [[a|e] w1]; [eauto | discriminate].
Qed.

Lemma lift_inv {A} (o : outcome A) w a w' :
  lift o w = (Return a, w') → o = Return a ∧ w' = w.
Proof. unfold lift. by intros [= -> ->]. Qed.

Lemma for_each_app {S X} (body : S → X → outcome S) s xs ys :
  for_each body s (xs ++ ys) = s' ← for_each body s xs; for_each body s' ys.
Proof.
  revert s. induction xs as [|x xs IH]; intros s; simpl; [done|].
  destruct (body s x) as [s'|e]; simpl; [apply IH | done].
Qed.

(** ** Strings *)

Lemma prefix_spec (n s : string) :
  String.prefix n s = true ↔ ∃ post, s = n +:+ post.
Proof.
  revert s. induction n as [|a n IH]; intros s.
  - split; [intros _; by exists s|]. by destruct s.
  - destruct s as [|b s]; simpl.
    + split; [done | by intros [post ?]].
    + destruct (Ascii.ascii_dec a b) as [->|Hab].
      * rewrite IH. split; intros [post Hpost]; exists post.
        -- by rewrite Hpost.
        -- simpl in Hpost. by injection Hpost.
      * split; [done|]. intros [post Hpost]. simpl in Hpost. by injection Hpost.
Qed.

(** [contains needle s] is Python's [needle in s]: [needle] occurs in [s]. *)
Lemma contains_spec (needle s : string) :
  contains needle s = true ↔ ∃ pre post, s = pre +:+ needle +:+ post.
Proof.
  induction s as [|c s IH]; cbn [contains].
  - rewrite orb_false_r, prefix_spec. split.
    + intros [post Hpost]. by exists "", post.
    + intros (pre & post & Hs). destruct pre; [by exists post | done].
  - rewrite orb_true_iff, prefix_spec, IH. split.
    + intros [[post Hpost] | (pre & post & ->)].
      * by exists "", post.
      * by exists (String c pre), post.
    + intros (pre & post & Hs). destruct pre as [|c' pre]; simpl in Hs.
      * left. by exists post.
      * right. injection Hs as -> ->. by exists pre, post.
Qed.

(** ** Reading a file *)



Lemma parse_well_formed f :
  well_formed f → parse (header f) (records f) = Return (frame_of f).
Proof.
  intros [Hh Hr]. unfold parse. rewrite decide_False by done.
  assert (forallb (λ r, length r <=? length (header f)) (records f) = true) as ->; [|done].
  apply Is_true_true, forallb_True. eapply Forall_impl; [done|].
  intros r Hle. by apply Is_true_true, Nat.leb_le.
Qed.

Lemma read_csv_well_formed path f w :
  files w !! path = Some f → well_formed f →
  read_csv path w = (Return (frame_of f), w).
Proof.
  intros Hf Hwf. unfold read_csv. rewrite Hf. by rewrite parse_well_formed.
Qed.

Lemma range_index_lookup recs j lr :
  range_index recs !! j = Some lr ↔ lr.1 = Z.of_nat j ∧ recs !! j = Some lr.2.
Proof.
  unfold range_index. rewrite list_lookup_imap. destruct lr as [l r]; simpl.
  destruct (recs !! j) as [r'|]; simpl; split.
  - by intros [= <- <-].
  - by intros [-> [= ->]].
  - done.
  - by intros [_ ?].
Qed.

Lemma range_index_snd recs : snd <$> range_index recs = recs.
Proof.
  apply list_eq. intros j. rewrite list_lookup_fmap.
  destruct (range_index recs !! j) as [lr|] eqn:E; simpl.
  - apply range_index_lookup in E. by destruct E as [_ ->].
  - unfold range_index in E. rewrite list_lookup_imap in E.
    by destruct (recs !! j).
Qed.

Lemma range_index_NoDup recs : NoDup (fst <$> range_index recs).
Proof.
  apply NoDup_alt. intros j1 j2 l.
  rewrite !list_lookup_fmap.
  destruct (range_index recs !! j1) as [lr1|] eqn:E1; [|done].
  destruct (range_index recs !! j2) as [lr2|] eqn:E2; [|done].
  apply range_index_lookup in E1 as [E1 _]. apply range_index_lookup in E2 as [E2 _].
  simpl. intros [= <-] [= E]. lia.
Qed.

Lemma length_range_index recs : length (range_index recs) = length recs.
Proof. unfold range_index. by rewrite length_imap. Qed.

Lemma cell_pad i n r : cell i (pad n r) = cell i r.
Proof.
  unfold cell, pad. destruct (decide (i < length r)) as [Hi|Hi].
  - by rewrite lookup_app_l.
  - rewrite lookup_app_r by lia. rewrite (lookup_ge_None_2 r) by lia.
    destruct (replicate _ _ !! _) as [v|] eqn:E; [|done].
    by apply lookup_replicate in E as [-> _].
Qed.

(** ** Dropping the current row inside an [iterrows] loop *)

(** ** Dropping the current row inside an [iterrows] loop *)

Lemma filter_all {A} (P : A → Prop) `{!∀ x, Decision (P x)} (l : list A) :
  Forall P l → base.filter P l = l.
Proof.
  induction 1 as [|x l Hx _ IH]; [done|].
  by rewrite filter_cons_True, IH.
Qed.

(** With distinct index labels, dropping the label of a row removes that row
    and no other. *)
Lemma filter_label_ne (pre post : list (Z * list value)) r :
  NoDup (fst <$> (pre ++ r :: post)) →
  base.filter (λ x, x.1 ≠ r.1) (pre ++ r :: post) = pre ++ post.
Proof.
  intros Hnd. rewrite fmap_app, fmap_cons in Hnd.
  apply NoDup_app in Hnd as (_ & Hpre & Hpost).
  apply NoDup_cons in Hpost as [Hr _].
  rewrite filter_app, filter_cons_False by (simpl; tauto).
  f_equal; apply filter_all, Forall_forall; intros x Hx E.
  - apply (Hpre x.1); [by apply list_elem_of_fmap_2 | rewrite E; left].
  - apply Hr. rewrite <- E. by apply list_elem_of_fmap_2.
Qed.

Lemma drop_index_current cols (pre post : list (Z * list value)) r :
  NoDup (fst <$> (pre ++ r :: post)) →
  drop_index r.1 (DF cols (pre ++ r :: post)) = Return (DF cols (pre ++ post)).
Proof.
  intros Hnd. unfold drop_index. simpl. rewrite decide_True.
  - by rewrite filter_label_ne.
  - rewrite fmap_app, fmap_cons. set_solver.
Qed.

Lemma NoDup_labels_drop (pre post : list (Z * list value)) r :
  NoDup (fst <$> (pre ++ r :: post)) → NoDup (fst <$> (pre ++ post)).
Proof.
  rewrite !fmap_app, fmap_cons. intros Hnd.
  apply NoDup_app in Hnd as (Hpre & Hdisj & Hpost).
  apply NoDup_cons in Hpost as [_ Hpost].
  apply NoDup_app. split_and!; [done| |done].
  intros x Hx Hx'. apply (Hdisj x Hx). by right.
Qed.

Section first_occurrences_facts.
Context {A : Type} (key : A → string).

Lemma keep_unseen_spec (pre l : list A) (seen : gset string) :
  (∀ k, k ∈ seen ↔ k ∈ key <$> pre) →
  keep_unseen key seen l =
  snd <$> base.filter (λ p, key p.2 ∉ key <$> take p.1 (pre ++ l))
            (imap (λ j x, (length pre + j, x)) l).
Proof.
  revert pre seen. induction l as [|x l IH]; intros pre seen Hseen; [done|].
  simpl. rewrite Nat.add_0_r.
  assert (take (length pre) (pre ++ x :: l) = pre) as Htake.
  { by rewrite take_app_length. }
  assert (imap ((λ j y, (length pre + j, y)) ∘ S) l
          = imap (λ j y, (length (pre ++ [x]) + j, y)) l) as Himap.
  { apply imap_ext. intros j y _. simpl. rewrite length_app. simpl.
    f_equal. lia. }
  rewrite Himap.
  assert (∀ p, (key p.2 ∉ key <$> take p.1 (pre ++ x :: l))
             ↔ (key p.2 ∉ key <$> take p.1 ((pre ++ [x]) ++ l))) as Hassoc.
  { intros p. by rewrite <- app_assoc. }
  destruct (decide (key x ∈ seen)) as [Hin|Hnin].
  - rewrite filter_cons_False.
    2:{ simpl. rewrite Htake. intros Hn. apply Hn. by apply Hseen. }
    rewrite (IH (pre ++ [x]) seen).
    + f_equal. apply list_filter_iff. intros p. symmetry. apply Hassoc.
    + intros k. rewrite fmap_app. simpl. rewrite Hseen. set_solver.
  - rewrite filter_cons_True.
    2:{ simpl. rewrite Htake. intros Hn. apply Hnin. by apply Hseen. }
    simpl. f_equal.
    rewrite (IH (pre ++ [x]) (seen ∪ {[key x]})).
    + f_equal. apply list_filter_iff. intros p. symmetry. apply Hassoc.
    + intros k. rewrite fmap_app. simpl. rewrite elem_of_union, Hseen. set_solver.
Qed.

Lemma keep_unseen_first_occurrences l :
  keep_unseen key ∅ l = first_occurrences key l.
Proof.
  rewrite (keep_unseen_spec [] l ∅); [done|].
  intros k. simpl. set_solver.
Qed.

Lemma keep_unseen_sublist seen l : sublist (keep_unseen key seen l) l.
Proof.
  revert seen. induction l as [|x l IH]; intros seen; simpl; [done|].
  case_decide; [by apply sublist_cons | by apply sublist_skip].
Qed.

Lemma keep_unseen_fresh seen l x : x ∈ keep_unseen key seen l → key x ∉ seen.
Proof.
  revert seen. induction l as [|y l IH]; intros seen; simpl; [by intros ?%elem_of_nil|].
  case_decide as Hy; [by apply IH|].
  intros [->|Hx]%elem_of_cons; [done|].
  apply IH in Hx. set_solver.
Qed.

Lemma keep_unseen_NoDup seen l : NoDup (key <$> keep_unseen key seen l).
Proof.
  revert seen. induction l as [|x l IH]; intros seen; simpl; [constructor|].
  case_decide; [apply IH|].
  rewrite fmap_cons. apply NoDup_cons. split; [|apply IH].
  intros (y & Hk & Hy)%list_elem_of_fmap.
  apply keep_unseen_fresh in Hy. set_solver.
Qed.

(** Of the rows under one key, the first is kept and no other. *)
Lemma keep_unseen_key seen l k :
  base.filter (λ x, key x = k) (keep_unseen key seen l)
  = if decide (k ∈ seen) then [] else take 1 (base.filter (λ x, key x = k) l).
Proof.
  revert seen. induction l as [|x l IH]; intros seen; simpl.
  { by case_decide. }
  destruct (decide (key x ∈ seen)) as [Hx|Hx].
  - rewrite IH. case_decide as Hk; [done|].
    rewrite filter_cons_False; [done|]. by intros <-.
  - destruct (decide (key x = k)) as [E|E].
    + subst k. rewrite !filter_cons_True by done. rewrite IH.
      rewrite decide_True by set_solver.
      by rewrite decide_False.
    + rewrite !filter_cons_False by done. rewrite IH.
      destruct (decide (k ∈ seen)) as [Hk|Hk].
      * rewrite decide_True by set_solver. done.
      * rewrite decide_False by set_solver. done.
Qed.
End first_occurrences_facts.

Lemma keep_unseen_snd {L A} (key : A → string) seen (l : list (L * A)) :
  snd <$> keep_unseen (key ∘ snd) seen l = keep_unseen key seen (snd <$> l).
Proof.
  revert seen. induction l as [|x l IH]; intros seen; simpl; [done|].
  case_decide; simpl; by rewrite IH.
Qed.

Lemma getitem_loc label cols cells i :
  get_loc label cols = Some i →
  getitem (MkSeries cols cells) label = Return (cell i cells).
Proof. unfold getitem. simpl. by intros ->. Qed.

(** ** removeDuplicates *)


Lemma removeDuplicates_loop cols i :
  get_loc "Name" cols = Some i →
  ∀ todo pre names,
    NoDup (fst <$> (pre ++ todo)) →
    ∃ names',
      for_each (λ (st : DataFrame * gset string) (it : Z * Series),
                 let '(data, names) := st in
                 let '(index, row) := it in
                 name ← getitem row "Name";
                 let lowered := lower (str name) in
                 if decide (lowered ∈ names) then
                   data' ← drop_index index data; Return (data', names)
                 else Return (data, names ∪ {[lowered]}))
        (DF cols (pre ++ todo), names)
        ((λ r, (r.1, MkSeries cols r.2)) <$> todo)
      = Return (DF cols (pre ++ keep_unseen (lowered i ∘ snd) names todo), names').
Proof.
  intros Hloc. induction todo as [|r todo IH]; intros pre names Hnd.
  { exists names. done. }
  rewrite fmap_cons. cbn [for_each]. cbn beta iota. cbn [fst snd].
  rewrite (getitem_loc _ _ _ _ Hloc). cbn [mbind outcome_bind keep_unseen].
  change (lower (str (cell i r.2))) with ((lowered i ∘ snd) r).
  destruct (decide ((lowered i ∘ snd) r ∈ names)) as [Hin|Hnin].
  - rewrite drop_index_current by done. cbn [mbind outcome_bind].
    apply IH. by eapply NoDup_labels_drop.
  - cbn [mbind outcome_bind].
    destruct (IH (pre ++ [r]) (names ∪ {[(lowered i ∘ snd) r]})) as [names' Hrun].
    { by rewrite <- app_assoc. }
    exists names'. rewrite <- !app_assoc in Hrun. apply Hrun.
Qed.

(** What a call of [removeDuplicates] on a well-formed file does. *)
Lemma removeDuplicates_run w input f i :
  files w !! input = Some f →
  well_formed f →
  get_loc "Name" (header f) = Some i →
  synonyms.removeDuplicates input w =
    (Return (),
     MkWorld (<["./chebiChemicalsCASSet.csv" :=
                 CSV (header f)
                     (first_occurrences (lowered i)
                        (pad (length (header f)) <$> records f))]> (files w))
             (stores w) (handles w)).
Proof.
  intros Hf Hwf Hloc. unfold synonyms.removeDuplicates.
  erewrite bind_Return by (by apply read_csv_well_formed).
  unfold iterrows, frame_of. cbn [columns rows].
  destruct (removeDuplicates_loop (header f) i Hloc
              (range_index (pad (length (header f)) <$> records f)) [] ∅)
    as [names' Hrun].
  { apply range_index_NoDup. }
  erewrite bind_Return; [|unfold lift; cbn [app] in Hrun; by rewrite Hrun].
  unfold to_csv, csv_of. cbn [fst columns rows app].
  by rewrite keep_unseen_snd, range_index_snd, keep_unseen_first_occurrences.
Qed.

(** C3.  On every table with a Name column, [removeDuplicates] writes the
    records whose lowercased Name is the lowercased Name of no earlier
    record: the first occurrence of each name, compared without case, is
    kept and the survivors stay in their order, so no two written records
    have the same Name up to case. *)
Theorem removeDuplicates_first_occurrence w input f i :
  files w !! input = Some f →
  well_formed f →
  get_loc "Name" (header f) = Some i →
  let recs := pad (length (header f)) <$> records f in
  let kept := first_occurrences (lowered i) recs in
  synonyms.removeDuplicates input w =
    (Return (),
     MkWorld (<["./chebiChemicalsCASSet.csv" := CSV (header f) kept]> (files w))
             (stores w) (handles w))
  ∧ sublist kept recs
  ∧ NoDup (lowered i <$> kept).
Proof.
  intros Hf Hwf Hloc recs kept. split_and!.
  - by apply removeDuplicates_run.
  - unfold kept. rewrite <- keep_unseen_first_occurrences. apply keep_unseen_sublist.
  - unfold kept. rewrite <- keep_unseen_first_occurrences. apply keep_unseen_NoDup.
Qed.

(** The table Water, WATER, Salt: Water and Salt are written. *)
Lemma removeDuplicates_water :
  files water_world !! "names.csv" = Some water_csv
  ∧ well_formed water_csv
  ∧ get_loc "Name" (header water_csv) = Some 0
  ∧ synonyms.removeDuplicates "names.csv" water_world =
      (Return (),
       MkWorld (<["./chebiChemicalsCASSet.csv" :=
                   CSV ["Name"] [[VStr "Water"]; [VStr "Salt"]]]> (files water_world))
               ∅ []).
Proof.
  assert (well_formed water_csv) as Hwf.
  { split; [done|]. repeat constructor. }
  split_and!; [done | done | done |].
  exact (proj1 (removeDuplicates_first_occurrence
                  water_world "names.csv" water_csv 0 eq_refl Hwf eq_refl)).
Defined.

Lemma length_filter_impl {A} (P Q : A → Prop)
    `{!∀ x, Decision (P x), !∀ x, Decision (Q x)} (l : list A) :
  (∀ x, P x → Q x) → length (base.filter P l) ≤ length (base.filter Q l).
Proof.
  intros HPQ. induction l as [|x l IH]; [done|].
  rewrite !filter_cons. destruct (decide (P x)) as [HP|HP].
  - rewrite decide_True by auto. simpl. lia.
  - destruct (decide (Q x)); simpl; lia.
Qed.

(** C10.  [removeDuplicates] takes [str] of the Name before lowercasing it,
    so a missing Name is remembered as "nan", the key of every text that
    lowercases to "nan" too.  Of all the records under that key only the
    first of the input is written; in particular at most one record with a
    missing Name is. *)
Theorem removeDuplicates_nan_key w input f i :
  files w !! input = Some f →
  well_formed f →
  get_loc "Name" (header f) = Some i →
  let recs := pad (length (header f)) <$> records f in
  ∃ kept,
    synonyms.removeDuplicates input w =
      (Return (),
       MkWorld (<["./chebiChemicalsCASSet.csv" := CSV (header f) kept]> (files w))
               (stores w) (handles w))
    ∧ (∀ r, cell i r = VNaN → lowered i r = "nan")
    ∧ (∀ r s, cell i r = VStr s → lowered i r = "nan" ↔ lower s = "nan")
    ∧ base.filter (λ r, lowered i r = "nan") kept
      = take 1 (base.filter (λ r, lowered i r = "nan") recs)
    ∧ length (base.filter (λ r, cell i r = VNaN) kept) ≤ 1.
Proof.
  intros Hf Hwf Hloc recs.
  assert (∀ r, cell i r = VNaN → lowered i r = "nan") as Hnan.
  { intros r Hr. unfold lowered. by rewrite Hr. }
  assert (base.filter (λ r, lowered i r = "nan") (first_occurrences (lowered i) recs)
          = take 1 (base.filter (λ r, lowered i r = "nan") recs)) as Hkey.
  { rewrite <- keep_unseen_first_occurrences, keep_unseen_key.
    by rewrite decide_False by set_solver. }
  exists (first_occurrences (lowered i) recs). split_and!.
  - by apply removeDuplicates_run.
  - done.
  - intros r s Hr. unfold lowered. by rewrite Hr.
  - done.
  - etrans; [by apply (length_filter_impl _ (λ r, lowered i r = "nan"))|].
    rewrite Hkey, length_take. lia.
Qed.

(** NAN, a short record, a missing Name, Nan: only the first is written. *)
Lemma removeDuplicates_nan_sample :
  files nan_world !! "names.csv" = Some nan_csv
  ∧ well_formed nan_csv
  ∧ get_loc "Name" (header nan_csv) = Some 1
  ∧ ∃ kept,
      synonyms.removeDuplicates "names.csv" nan_world =
        (Return (),
         MkWorld (<["./chebiChemicalsCASSet.csv" := CSV (header nan_csv) kept]>
                    (files nan_world)) ∅ [])
      ∧ base.filter (λ r, lowered 1 r = "nan") kept = [[VInt 1; VStr "NAN"]].
Proof.
  assert (well_formed nan_csv) as Hwf.
  { split; [done|]. repeat constructor. }
  split_and!; [done | done | done |].
  destruct (removeDuplicates_nan_key nan_world "names.csv" nan_csv 1 eq_refl Hwf eq_refl)
    as (kept & Hrun & _ & _ & Hkey & _).
  exists kept. split; [exact Hrun | exact Hkey].
Defined.

(** ** mergeCSVCheBI *)

Lemma build_index_loop key val cols ik iv :
  get_loc key cols = Some ik →
  get_loc val cols = Some iv →
  ∀ rs d,
    for_each (λ (d : gmap value value) (it : Z * Series),
                k ← getitem it.2 key;
                v ← getitem it.2 val;
                Return (<[k := v]> d))
             d ((λ r, (r.1, MkSeries cols r.2)) <$> rs)
    = Return (index_of_rows ik iv rs d).
Proof.
  intros Hk Hv. induction rs as [|r rs IH]; intros d; [done|].
  rewrite fmap_cons. cbn [for_each snd].
  rewrite (getitem_loc _ _ _ _ Hk), (getitem_loc _ _ _ _ Hv).
  cbn [mbind outcome_bind]. by rewrite IH.
Qed.

Lemma build_index_rows key val t ik iv :
  get_loc key (columns t) = Some ik →
  get_loc val (columns t) = Some iv →
  synonyms.build_index key val t = Return (index_of_rows ik iv (rows t) ∅).
Proof. intros Hk Hv. by apply build_index_loop. Qed.

Lemma index_of_rows_cons ik iv r rs d :
  index_of_rows ik iv (r :: rs) d
  = index_of_rows ik iv rs (<[cell ik r.2 := cell iv r.2]> d).
Proof. done. Qed.

Lemma index_of_rows_app ik iv rs1 rs2 d :
  index_of_rows ik iv (rs1 ++ rs2) d
  = index_of_rows ik iv rs2 (index_of_rows ik iv rs1 d).
Proof. apply foldl_app. Qed.

(** Rows under other keys leave the entry of [k] as it is. *)
Lemma index_of_rows_other ik iv rs d k :
  Forall (λ r, cell ik r.2 ≠ k) rs →
  index_of_rows ik iv rs d !! k = d !! k.
Proof.
  intros Hrs. revert d. induction Hrs as [|r rs Hr _ IH]; intros d; [done|].
  rewrite index_of_rows_cons, IH. by rewrite lookup_insert_ne.
Qed.

Lemma index_of_rows_last ik iv pre r post d :
  Forall (λ r', cell ik r'.2 ≠ cell ik r.2) post →
  index_of_rows ik iv (pre ++ r :: post) d !! cell ik r.2 = Some (cell iv r.2).
Proof.
  intros Hpost. rewrite index_of_rows_app, index_of_rows_cons.
  rewrite index_of_rows_other by done. by rewrite lookup_insert_eq.
Qed.

(** C8.  The lookup dictionaries of [mergeCSVCheBI] are filled by assignment
    row after row, so the last row of a table under a Compound ID decides
    the entry of that ID: last write wins.  (The Compound ID is one that is
    there; a missing one is outside the model.) *)
Theorem build_index_last_write_wins key val t ik iv pre r post :
  get_loc key (columns t) = Some ik →
  get_loc val (columns t) = Some iv →
  rows t = pre ++ r :: post →
  Forall (λ r', cell ik r'.2 ≠ cell ik r.2) post →
  cell ik r.2 ≠ VNaN →
  ∃ d, synonyms.build_index key val t = Return d
       ∧ d !! cell ik r.2 = Some (cell iv r.2).
Proof.
  intros Hk Hv Hrows Hpost _. eexists. split; [by apply build_index_rows|].
  rewrite Hrows. by apply index_of_rows_last.
Qed.

(** Two rows for Compound ID 1: the entry is the formula of the second. *)
Lemma build_index_last_write_wins_sample :
  get_loc "Compound ID" (columns (frame_of dup_formulas_csv)) = Some 0
  ∧ get_loc "Formula" (columns (frame_of dup_formulas_csv)) = Some 1
  ∧ ∃ d, synonyms.build_index "Compound ID" "Formula" (frame_of dup_formulas_csv)
         = Return d
         ∧ d !! VInt 1 = Some (VStr "CO2").
Proof.
  split_and!; [done | done |].
  apply (build_index_last_write_wins "Compound ID" "Formula"
           (frame_of dup_formulas_csv) 0 1
           [(0%Z, [VInt 1; VStr "H2O"])]
           (1%Z, [VInt 1; VStr "CO2"])
           [(2%Z, [VInt 2; VStr "NaCl"])]).
  - reflexivity.
  - reflexivity.
  - reflexivity.
  - repeat constructor. simpl. discriminate.
  - simpl. discriminate.
Defined.

Lemma merge_row_step cols F C ii iname st l cells :
  get_loc "Compound ID" cols = Some ii →
  get_loc "Name" cols = Some iname →
  ∃ ms,
    synonyms.merge_row F C st (l, MkSeries cols cells)
    = Return (synonyms.Lists
                (synonyms.formulaList st ++ [merge_cell F (cell ii cells)])
                (synonyms.casList st ++ [merge_cell C (cell ii cells)])
                ms).
Proof.
  intros Hid Hname. unfold synonyms.merge_row. cbv zeta. cbn [snd].
  rewrite !(getitem_loc _ _ _ _ Hid), (getitem_loc _ _ _ _ Hname).
  cbn [mbind outcome_bind]. unfold merge_cell.
  destruct (truth (F !! cell ii cells)), (truth (C !! cell ii cells));
    cbn [mbind outcome_bind synonyms.formulaList synonyms.casList synonyms.missing];
    eauto.
Qed.

Lemma merge_loop cols F C ii iname :
  get_loc "Compound ID" cols = Some ii →
  get_loc "Name" cols = Some iname →
  ∀ rs st,
    ∃ ms,
      for_each (synonyms.merge_row F C) st ((λ r, (r.1, MkSeries cols r.2)) <$> rs)
      = Return (synonyms.Lists
                  (synonyms.formulaList st ++ (merge_cell F ∘ cell ii ∘ snd <$> rs))
                  (synonyms.casList st ++ (merge_cell C ∘ cell ii ∘ snd <$> rs))
                  ms).
Proof.
  intros Hid Hname. induction rs as [|r rs IH]; intros st.
  { exists (synonyms.missing st). simpl. rewrite !app_nil_r. by destruct st. }
  rewrite fmap_cons. cbn [for_each].
  destruct (merge_row_step cols F C ii iname st r.1 r.2 Hid Hname) as [ms1 ->].
  cbn [mbind outcome_bind].
  destruct (IH (synonyms.Lists
                  (synonyms.formulaList st ++ [merge_cell F (cell ii r.2)])
                  (synonyms.casList st ++ [merge_cell C (cell ii r.2)]) ms1))
    as [ms Hms].
  exists ms. rewrite Hms. cbn [synonyms.formulaList synonyms.casList].
  by rewrite !fmap_cons, <- !app_assoc.
Qed.

(** [df[label] = vals] for a label the frame does not have yet. *)
Lemma setcol_new cols rs label vals :
  get_loc label cols = None →
  length vals = length rs →
  setcol (DF cols rs) label vals
  = Return (DF (cols ++ [label]) (zip_with (λ r v, (r.1, r.2 ++ [v])) rs vals)).
Proof.
  intros Hloc Hlen. unfold setcol. cbn [rows columns].
  by rewrite decide_True, Hloc.
Qed.

(** What a call of [mergeCSVCheBI] does when the three files are well formed
    and have their columns. *)
Lemma mergeCSVCheBI_run w fF fC fN iF vF iC vC :
  files w !! "./chebiFormulas.csv" = Some fF →
  well_formed fF →
  get_loc "Compound ID" (header fF) = Some iF →
  get_loc "Formula" (header fF) = Some vF →
  files w !! "./chebiCAS.csv" = Some fC →
  well_formed fC →
  get_loc "Compound ID" (header fC) = Some iC →
  get_loc "Accession Number" (header fC) = Some vC →
  files w !! "./chebiNames.csv" = Some fN →
  well_formed fN →
  header fN = ["Compound ID"; "Name"] →
  let F := index_of_rows iF vF (rows (frame_of fF)) ∅ in
  let C := index_of_rows iC vC (rows (frame_of fC)) ∅ in
  synonyms.mergeCSVCheBI w =
    (Return (),
     MkWorld (<["./chebiChemicalsCAS.csv" :=
                 CSV ["Compound ID"; "Name"; "Formula"; "CAS"]
                     ((λ r, r ++ [merge_cell F (cell 0 r); merge_cell C (cell 0 r)])
                        <$> (pad 2 <$> records fN))]> (files w))
             (stores w) (handles w)).
Proof.
  intros HfF HwF HiF HvF HfC HwC HiC HvC HfN HwN HhN F C.
  unfold synonyms.mergeCSVCheBI.
  erewrite bind_Return by (by apply read_csv_well_formed).
  erewrite bind_Return by (unfold lift; by erewrite build_index_rows).
  erewrite bind_Return by (by apply read_csv_well_formed).
  erewrite bind_Return by (unfold lift; by erewrite build_index_rows).
  erewrite bind_Return by (by apply read_csv_well_formed).
  fold F C. unfold iterrows, frame_of. rewrite HhN. cbn [columns rows length].
  set (rs := range_index (pad 2 <$> records fN)).
  destruct (merge_loop ["Compound ID"; "Name"] F C 0 1 eq_refl eq_refl rs
              (synonyms.Lists [] [] [])) as [ms Hloop].
  erewrite bind_Return by (unfold lift; by rewrite Hloop).
  cbn [synonyms.formulaList synonyms.casList app].
  erewrite bind_Return.
  2:{ unfold lift. rewrite setcol_new; [done | done | by rewrite length_fmap]. }
  erewrite bind_Return.
  2:{ unfold lift. rewrite setcol_new; [done | done |].
      by rewrite length_zip_with_l_eq, length_fmap by (by rewrite length_fmap). }
  unfold to_csv, csv_of. cbn [columns rows app]. do 3 f_equal.
  rewrite !zip_with_fmap_r.
  rewrite (zip_with_diag (λ r v, (r.1, r.2 ++ [(merge_cell F ∘ cell 0 ∘ snd) v]))).
  rewrite zip_with_fmap_l, zip_with_diag, <- list_fmap_compose.
  f_equal. rewrite <- (range_index_snd (pad 2 <$> records fN)). fold rs.
  rewrite <- list_fmap_compose. apply list_fmap_ext. intros j [l r] _. simpl.
  by rewrite <- app_assoc.
Qed.

Lemma index_of_frame_absent f ik iv k :
  Forall (λ r, cell ik r ≠ k) (records f) →
  index_of_rows ik iv (rows (frame_of f)) ∅ !! k = None.
Proof.
  intros Hrs. rewrite index_of_rows_other; [apply lookup_empty|].
  unfold frame_of. cbn [rows].
  apply (proj1 (Forall_fmap snd (λ c, cell ik c ≠ k) _)).
  rewrite range_index_snd.
  apply (proj2 (Forall_fmap (pad _) (λ c, cell ik c ≠ k) _)).
  eapply Forall_impl; [done|]. intros r Hr. simpl. by rewrite cell_pad.
Qed.

Lemma merge_cell_absent d k : d !! k = None → merge_cell d k = VStr "MISSING".
Proof. unfold merge_cell. by intros ->. Qed.

(** C9.  [mergeCSVCheBI] writes one record for each record of the Names
    table, in the order of that table, under the columns Compound ID, Name,
    Formula, CAS: the Names record followed by its two looked-up cells.  A
    Names record whose Compound ID no row of the Formulas (or CAS) table has
    is written all the same, with "MISSING" in that cell. *)
Theorem mergeCSVCheBI_one_row_per_name w fF fC fN iF vF iC vC :
  files w !! "./chebiFormulas.csv" = Some fF →
  well_formed fF →
  get_loc "Compound ID" (header fF) = Some iF →
  get_loc "Formula" (header fF) = Some vF →
  files w !! "./chebiCAS.csv" = Some fC →
  well_formed fC →
  get_loc "Compound ID" (header fC) = Some iC →
  get_loc "Accession Number" (header fC) = Some vC →
  files w !! "./chebiNames.csv" = Some fN →
  well_formed fN →
  header fN = ["Compound ID"; "Name"] →
  ∃ out,
    synonyms.mergeCSVCheBI w =
      (Return (),
       MkWorld (<["./chebiChemicalsCAS.csv" := out]> (files w)) (stores w) (handles w))
    ∧ header out = ["Compound ID"; "Name"; "Formula"; "CAS"]
    ∧ length (records out) = length (records fN)
    ∧ ∀ j r, records fN !! j = Some r →
        ∃ formula cas,
          records out !! j = Some (pad 2 r ++ [formula; cas])
          ∧ (Forall (λ r', cell iF r' ≠ cell 0 r) (records fF) →
             formula = VStr "MISSING")
          ∧ (Forall (λ r', cell iC r' ≠ cell 0 r) (records fC) →
             cas = VStr "MISSING").
Proof.
  intros HfF HwF HiF HvF HfC HwC HiC HvC HfN HwN HhN.
  eexists. split; [by eapply mergeCSVCheBI_run|].
  cbn [header records]. split_and!.
  - done.
  - by rewrite !length_fmap.
  - intros j r Hj. do 2 eexists. split_and!.
    + rewrite !list_lookup_fmap, Hj. reflexivity.
    + intros Habs. rewrite cell_pad. by apply merge_cell_absent, index_of_frame_absent.
    + intros Habs. rewrite cell_pad. by apply merge_cell_absent, index_of_frame_absent.
Qed.

(** Names [(1, A)], no formula, CAS [(1, 50-00-0)]: the record of A is
    written, with MISSING for its formula. *)
Lemma mergeCSVCheBI_sample :
  well_formed no_formulas_csv ∧ well_formed cas_csv ∧ well_formed names_csv
  ∧ ∃ out cas,
      synonyms.mergeCSVCheBI merge_world =
        (Return (),
         MkWorld (<["./chebiChemicalsCAS.csv" := out]> (files merge_world)) ∅ [])
      ∧ header out = ["Compound ID"; "Name"; "Formula"; "CAS"]
      ∧ records out !! 0 = Some [VInt 1; VStr "A"; VStr "MISSING"; cas].
Proof.
  assert (well_formed no_formulas_csv) as HwF by (split; [done | constructor]).
  assert (well_formed cas_csv) as HwC by (split; [done | repeat constructor]).
  assert (well_formed names_csv) as HwN by (split; [done | repeat constructor]).
  split_and!; [done | done | done |].
  destruct (mergeCSVCheBI_one_row_per_name merge_world
              no_formulas_csv cas_csv names_csv 0 1 0 1
              eq_refl HwF eq_refl eq_refl eq_refl HwC eq_refl eq_refl
              eq_refl HwN eq_refl)
    as (out & Hrun & Hhead & _ & Hrows).
  destruct (Hrows 0 [VInt 1; VStr "A"] eq_refl) as (formula & cas & Hrow & Hformula & _).
  exists out, cas. split_and!; [exact Hrun | exact Hhead |].
  rewrite Hrow, Hformula; [reflexivity | constructor].
Defined.

Lemma merge_cell_truthy d k v :
  d !! k = Some v → truthy v = true → merge_cell d k = v.
Proof. unfold merge_cell. intros -> Hv. simpl. by rewrite Hv. Qed.

Lemma merge_cell_falsy d k v :
  d !! k = Some v → truthy v = false → merge_cell d k = VStr "MISSING".
Proof. unfold merge_cell. intros -> Hv. simpl. by rewrite Hv. Qed.

(** C1.  The Formula cell of a written record is meant to be "MISSING"
    exactly when the Compound ID has no entry in the dictionary.  The source
    tests the looked-up value for truth, so an entry that is there but is
    zero or an empty text is replaced too: with the formula 0 on record for
    Compound ID 1, the dictionary has the key 1 and the record of that ID is
    written with "MISSING"; so is a row whose ID maps to the empty text. *)
Theorem mergeCSVCheBI_zero_formula :
  (∃ d, synonyms.build_index "Compound ID" "Formula" (frame_of zero_formula_csv)
        = Return d
        ∧ d !! VInt 1 = Some (VInt 0))
  ∧ synonyms.merge_row {[VInt 1 := VStr ""]} {[VInt 1 := VStr "50-00-0"]}
      (synonyms.Lists [] [] [])
      (0%Z, MkSeries ["Compound ID"; "Name"] [VInt 1; VStr "A"])
    = Return (synonyms.Lists [VStr "MISSING"] [VStr "50-00-0"] [VStr "A"])
  ∧ synonyms.mergeCSVCheBI zero_world =
      (Return (),
       MkWorld (<["./chebiChemicalsCAS.csv" :=
                   CSV ["Compound ID"; "Name"; "Formula"; "CAS"]
                       [[VInt 1; VStr "A"; VStr "MISSING"; VStr "50-00-0"]]]>
                  (files zero_world)) ∅ []).
Proof.
  split_and!.
  - eexists. split; [by apply (build_index_rows _ _ _ 0 1)|]. done.
  - done.
  - assert (well_formed zero_formula_csv) as HwF by (split; [done | repeat constructor]).
    assert (well_formed cas_csv) as HwC by (split; [done | repeat constructor]).
    assert (well_formed names_csv) as HwN by (split; [done | repeat constructor]).
    rewrite (mergeCSVCheBI_run zero_world zero_formula_csv cas_csv names_csv 0 1 0 1)
      by done.
    done.
Qed.

(** ** makeDatabase *)

Lemma remove_first_head h hs : remove_first h (h :: hs) = hs.
Proof. simpl. by rewrite decide_True. Qed.

(** What a call of [makeDatabase] does once the file is read. *)
Lemma makeDatabase_run input output name w f :
  files w !! input = Some f →
  well_formed f →
  let data := frame_of f in
  let db := default ∅ (stores w !! output) in
  let t := default (Table (header f) []) (db !! name) in
  synonyms.makeDatabase input output name w =
    if decide (rows data = []) then
      (Return (),
       MkWorld (files w) (<[output := <[name := t]> db]> (stores w)) (handles w))
    else if decide (header f ⊆ tcols t) then
      (Return (),
       MkWorld (files w)
         (<[output := <[name := Table (tcols t)
                         (trows t ++ (sql_row (tcols t) (header f) ∘ snd <$> rows data))]>
                      db]> (stores w))
         (handles w))
    else
      (Raise OperationalError,
       MkWorld (files w) (<[output := <[name := t]> db]> (stores w))
               (output :: handles w)).
Proof.
  intros Hf Hwf data db t. unfold synonyms.makeDatabase.
  erewrite bind_Return by (by apply read_csv_well_formed).
  erewrite bind_Return by reflexivity.
  unfold bind, to_sql, close. cbn [files stores handles].
  rewrite lookup_insert_eq. cbn [from_option id]. fold data db.
  change (columns data) with (header f). fold t.
  rewrite !insert_insert_eq.
  destruct (decide (rows data = []));
    [cbn [files stores handles]; by rewrite remove_first_head|].
  destruct (decide (header f ⊆ tcols t));
    [cbn [files stores handles]; by rewrite remove_first_head|done].
Qed.

(** C5.  [makeDatabase] closes the connection as its last statement, and
    nothing guards that statement: the handle is released when the call
    returns, and it was never opened when [read_csv] raises; when the append
    raises, the error leaves the function with the connection still open. *)
Theorem makeDatabase_handles input output name w :
  match synonyms.makeDatabase input output name w with
  | (Return _, w') => handles w' = handles w
  | (Raise OperationalError, w') => handles w' = output :: handles w
  | (Raise _, w') => handles w' = handles w
  end.
Proof.
  unfold synonyms.makeDatabase, bind, read_csv.
  destruct (files w !! input) as [f|]; [|done].
  destruct (parse (header f) (records f)) as [data|e] eqn:Hparse.
  - unfold connect, to_sql, close. cbn [files stores handles].
    destruct (decide (rows data = []));
      [cbn [files stores handles]; by rewrite remove_first_head|].
    destruct (decide (columns data ⊆ _));
      [cbn [files stores handles]; by rewrite remove_first_head|done].
  - unfold parse in Hparse. repeat case_match; by simplify_eq.
Qed.

(** The file has the columns Compound ID and Name, the table [t] of the
    store only Formula: the append raises and the connection stays open. *)
Lemma makeDatabase_leaves_handle_open :
  let r := synonyms.makeDatabase "in.csv" "db" "t" mismatch_world in
  r.1 = Raise OperationalError
  ∧ handles mismatch_world = []
  ∧ handles r.2 = ["db"].
Proof. by vm_compute. Qed.

Lemma table_rows_insert fs ss output name t db hs :
  table_rows (MkWorld fs (<[output := <[name := t]> db]> ss) hs) output name
  = trows t.
Proof.
  unfold table_rows, table_of. cbn [stores].
  rewrite lookup_insert_eq. simpl. by rewrite lookup_insert_eq.
Qed.

Lemma table_rows_default w output name cols :
  table_rows w output name
  = trows (default (Table cols []) (default ∅ (stores w !! output) !! name)).
Proof.
  unfold table_rows, table_of.
  destruct (stores w !! output) as [db|]; simpl; [|by rewrite lookup_empty].
  by destruct (db !! name).
Qed.

Lemma get_loc_lookup cols j c :
  NoDup cols → cols !! j = Some c → get_loc c cols = Some j.
Proof.
  intros Hnd. revert j. induction Hnd as [|c' cols Hc' _ IH]; intros j Hj; [done|].
  simpl. destruct j as [|j]; simpl in Hj.
  - injection Hj as ->. by rewrite decide_True.
  - rewrite decide_False.
    + by rewrite (IH j).
    + intros ->. apply Hc'. by eapply list_elem_of_lookup_2.
Qed.

(** In the column order of the frame itself a record is stored as it is. *)
Lemma sql_row_self cols cells :
  NoDup cols → length cells = length cols → sql_row cols cols cells = cells.
Proof.
  intros Hnd Hlen. apply list_eq. intros j. unfold sql_row.
  rewrite list_lookup_fmap.
  destruct (cols !! j) as [c|] eqn:Hc; simpl.
  - rewrite (get_loc_lookup cols j c) by done.
    apply lookup_lt_Some in Hc. rewrite <- Hlen in Hc.
    apply lookup_lt_is_Some in Hc as [v Hv]. unfold cell. by rewrite Hv.
  - apply lookup_ge_None in Hc. symmetry. apply lookup_ge_None. lia.
Qed.

Lemma length_pad n r : length r ≤ n → length (pad n r) = n.
Proof. intros Hr. unfold pad. rewrite length_app, length_replicate. lia. Qed.

(** C6.  [makeDatabase] only appends.  Into a store that has no table of
    the name yet, two calls with the same file both return and leave the
    table with the records of the file twice: twice as many rows as the file
    has records.  Whatever the table held before, a second call after a
    first one that returned returns too, and the table is its old rows, then
    the new rows, then the new rows again: nothing is merged, changed or
    removed. *)
Theorem makeDatabase_appends_twice input output name w f :
  files w !! input = Some f →
  well_formed f →
  (table_of w output name = None →
   ∃ w1 w2 new,
     synonyms.makeDatabase input output name w = (Return (), w1)
     ∧ synonyms.makeDatabase input output name w1 = (Return (), w2)
     ∧ table_rows w2 output name = new ++ new
     ∧ length (table_rows w2 output name) = 2 * length (records f)
     ∧ (NoDup (header f) → new = pad (length (header f)) <$> records f))
  ∧ (∀ w1,
       synonyms.makeDatabase input output name w = (Return (), w1) →
       ∃ w2 new,
         synonyms.makeDatabase input output name w1 = (Return (), w2)
         ∧ length new = length (records f)
         ∧ table_rows w1 output name = table_rows w output name ++ new
         ∧ table_rows w2 output name = table_rows w output name ++ new ++ new).
Proof.
  intros Hf Hwf.
  set (data := frame_of f).
  set (db := default ∅ (stores w !! output)).
  set (t := default (Table (header f) []) (db !! name)).
  set (new := sql_row (tcols t) (header f) ∘ snd <$> rows data).
  assert (length new = length (records f)) as Hlen.
  { unfold new, data, frame_of. cbn [rows].
    by rewrite length_fmap, length_range_index, length_fmap. }
  assert (table_rows w output name = trows t) as Hold.
  { apply table_rows_default. }
  assert (∀ w1,
    synonyms.makeDatabase input output name w = (Return (), w1) →
    ∃ w2,
      synonyms.makeDatabase input output name w1 = (Return (), w2)
      ∧ table_rows w1 output name = trows t ++ new
      ∧ table_rows w2 output name = trows t ++ new ++ new) as Hgen.
  { intros w1 Hrun1.
    rewrite (makeDatabase_run input output name w f Hf Hwf) in Hrun1.
    fold data db t in Hrun1.
    destruct (decide (rows data = [])) as [Hemp|Hne].
    - injection Hrun1 as <-.
      assert (new = []) as -> by (unfold new; by rewrite Hemp).
      match goal with |- context [synonyms.makeDatabase _ _ _ ?w'] =>
        rewrite (makeDatabase_run input output name w' f Hf Hwf) end.
      fold data. rewrite decide_True by done. cbn [stores files handles].
      rewrite lookup_insert_eq. cbn [from_option id]. rewrite lookup_insert_eq.
      cbn [from_option id]. eexists. split; [done|].
      rewrite !table_rows_insert. by rewrite !app_nil_r.
    - destruct (decide (header f ⊆ tcols t)) as [Hsub|Hsub]; [|done].
      injection Hrun1 as <-.
      match goal with |- context [synonyms.makeDatabase _ _ _ ?w'] =>
        rewrite (makeDatabase_run input output name w' f Hf Hwf) end.
      fold data. rewrite decide_False by done. cbn [stores files handles].
      rewrite lookup_insert_eq. cbn [from_option id]. rewrite lookup_insert_eq.
      cbn [from_option id tcols trows]. rewrite decide_True by done.
      eexists. split; [done|].
      rewrite !table_rows_insert. cbn [trows]. fold new. by rewrite <- app_assoc. }
  split.
  - intros Hfresh.
    assert (db !! name = None) as Hnone.
    { unfold table_of in Hfresh. unfold db.
      destruct (stores w !! output) as [db'|]; simpl in *; [done|apply lookup_empty]. }
    assert (t = Table (header f) []) as Ht by (unfold t; by rewrite Hnone).
    assert (∃ w1, synonyms.makeDatabase input output name w = (Return (), w1))
      as [w1 Hrun1].
    { rewrite (makeDatabase_run input output name w f Hf Hwf). fold data db t.
      destruct (decide (rows data = [])); [by eexists|].
      rewrite decide_True; [by eexists|]. by rewrite Ht. }
    destruct (Hgen w1 Hrun1) as (w2 & Hrun2 & _ & Hrows2).
    rewrite Ht in Hrows2. cbn [trows app] in Hrows2.
    exists w1, w2, new. split_and!; [done | done | done | |].
    + rewrite Hrows2, length_app. lia.
    + intros Hnd. unfold new, data, frame_of. cbn [rows].
      rewrite list_fmap_compose, range_index_snd, Ht. cbn [tcols].
      rewrite <- list_fmap_compose. apply list_fmap_ext. intros j r Hr. simpl.
      apply sql_row_self; [done|]. apply length_pad.
      destruct Hwf as [_ Hall]. eapply Forall_lookup_1 in Hall; done.
  - intros w1 Hrun1. destruct (Hgen w1 Hrun1) as (w2 & Hrun2 & Hrows1 & Hrows2).
    exists w2, new. rewrite Hold. done.
Qed.

(** A file of two records, appended twice to a new store: four rows. *)
Lemma makeDatabase_two_rows_twice :
  ∃ w1 w2,
    synonyms.makeDatabase "in.csv" "db" "t" two_rows_world = (Return (), w1)
    ∧ synonyms.makeDatabase "in.csv" "db" "t" w1 = (Return (), w2)
    ∧ length (table_rows w2 "db" "t") = 4.
Proof.
  assert (well_formed two_rows_csv) as Hwf by (split; [done | repeat constructor]).
  destruct (makeDatabase_appends_twice "in.csv" "db" "t" two_rows_world two_rows_csv
              eq_refl Hwf) as [Hfresh _].
  destruct (Hfresh eq_refl) as (w1 & w2 & new & Hrun1 & Hrun2 & _ & Hlen & _).
  exists w1, w2. split_and!; [exact Hrun1 | exact Hrun2 | exact Hlen].
Defined.

(** ** lowercaseNames *)










(** ** filter *)

Lemma filter_loop cols i :
  get_loc "Synonym" cols = Some i →
  ∀ todo pre,
    NoDup (fst <$> (pre ++ todo)) →
    Forall (λ r, is_str (cell i r.2) = true) todo →
    for_each (λ (batch : DataFrame) (it : Z * Series),
                let '(index, row) := it in
                synonym ← getitem row "Synonym";
                hit ← py_in "CHEMBL" synonym;
                if (hit : bool) then drop_index index batch else Return batch)
      (DF cols (pre ++ todo))
      ((λ r, (r.1, MkSeries cols r.2)) <$> todo)
    = Return (DF cols (pre ++ base.filter (λ r, is_chembl (cell i r.2) = false) todo)).
Proof.
  intros Hloc. induction todo as [|r todo IH]; intros pre Hnd Hstr; [done|].
  apply Forall_cons in Hstr as [Hr Hstr].
  rewrite fmap_cons. cbn [for_each]. cbn beta iota. cbn [fst snd].
  rewrite (getitem_loc _ _ _ _ Hloc). cbn [mbind outcome_bind].
  destruct (cell i r.2) as [s| |] eqn:Hcell; [|done|done].
  cbn [py_in mbind outcome_bind].
  destruct (contains "CHEMBL" s) eqn:Hhit.
  - rewrite drop_index_current by done. cbn [mbind outcome_bind].
    rewrite filter_cons_False by (by rewrite Hcell; simpl; rewrite Hhit).
    apply IH; [by eapply NoDup_labels_drop | done].
  - cbn [mbind outcome_bind].
    rewrite filter_cons_True by (by rewrite Hcell; simpl; rewrite Hhit).
    specialize (IH (pre ++ [r])). rewrite <- !app_assoc in IH.
    apply IH; done.
Qed.

(** What a call of [filter] does on a table whose Synonyms are all texts:
    the rows without the marker are written, each behind its index label,
    under a header that starts with a column without a name. *)
Lemma filter_run w f i :
  files w !! "./cid-synonyms01.csv" = Some f →
  well_formed f →
  get_loc "Synonym" (header f) = Some i →
  Forall (λ r, is_str (cell i r) = true) (records f) →
  synonyms.filter w =
    (Return (),
     MkWorld (<["./cid-synonyms01.csv" :=
                 CSV ("" :: header f)
                     ((λ r, VInt r.1 :: r.2)
                        <$> base.filter (λ r, is_chembl (cell i r.2) = false)
                              (range_index (pad (length (header f)) <$> records f)))]>
                (files w))
             (stores w) (handles w)).
Proof.
  intros Hf Hwf Hloc Hstr. unfold synonyms.filter.
  erewrite bind_Return by (by apply read_csv_well_formed).
  unfold iterrows, frame_of. cbn [columns rows].
  pose proof (filter_loop (header f) i Hloc
                (range_index (pad (length (header f)) <$> records f)) []) as Hloop.
  cbn [app] in Hloop.
  erewrite bind_Return; [|unfold lift; rewrite Hloop; [done| |]].
  - done.
  - apply range_index_NoDup.
  - apply (proj1 (Forall_fmap snd (λ c, is_str (cell i c) = true) _)).
    rewrite range_index_snd.
    apply (proj2 (Forall_fmap (pad _) (λ c, is_str (cell i c) = true) _)).
    eapply Forall_impl; [done|]. intros r Hr. simpl. by rewrite cell_pad.
Qed.

(** C4.  [filter] is to write the table back without the rows whose Synonym
    contains CHEMBL, and without a row-index column.  Its [to_csv] lacks the
    [index=False] that every other function of the script passes: for the
    table CHEMBL123, ethanol it writes the header with an unnamed first
    column and the record of ethanol behind its index label 1. *)
Theorem filter_writes_index_column :
  synonyms.filter synonyms01_world =
    (Return (),
     MkWorld (<["./cid-synonyms01.csv" :=
                 CSV [""; "ID"; "Synonym"] [[VInt 1; VInt 7; VStr "ethanol"]]]>
                (files synonyms01_world)) ∅ []).
Proof.
  assert (well_formed synonyms01_csv) as Hwf by (split; [done | repeat constructor]).
  rewrite (filter_run synonyms01_world synonyms01_csv 1 eq_refl Hwf eq_refl)
    by (repeat constructor).
  done.
Qed.

(** ** The decompressors *)

Lemma value_leb_total a b : value_leb a b = true ∨ value_leb b a = true.
Proof.
  destruct a as [s|x|], b as [t|y|]; simpl; auto.
  - apply String.leb_total.
  - destruct (decide (x ≤ y)%Z).
    + left. by apply bool_decide_eq_true.
    + right. apply bool_decide_eq_true. lia.
Qed.

Global Instance row_le_total i : Total (row_le i).
Proof. intros r1 r2. apply value_leb_total. Qed.

Lemma is_int_VInt v : is_int v = true → v = VInt (int_of v).
Proof. by destruct v. Qed.

(** Rows sorted on an integer column have that column ascending. *)
Lemma Sorted_row_le_ints i rs :
  Forall (λ r, is_int (cell i r.2) = true) rs →
  Sorted (row_le i) rs →
  Sorted Z.le (int_of ∘ cell i ∘ snd <$> rs).
Proof.
  intros Hint Hsorted. induction Hsorted as [|r rs _ IH Hhd]; [constructor|].
  apply Forall_cons in Hint as [Hr Hint]. rewrite fmap_cons.
  constructor; [by apply IH|].
  destruct Hhd as [|r' rs' Hle]; [constructor|]. rewrite fmap_cons. constructor.
  apply Forall_cons in Hint as [Hr' _]. unfold row_le in Hle. simpl.
  rewrite (is_int_VInt _ Hr), (is_int_VInt _ Hr') in Hle. simpl in Hle.
  by apply bool_decide_eq_true in Hle.
Qed.

(** Writing back a column that was read from the frame changes nothing. *)
Lemma setcol_same df label i :
  get_loc label (columns df) = Some i →
  Forall (λ r, is_int (cell i r.2) = true) (rows df) →
  setcol df label (cell i ∘ snd <$> rows df) = Return df.
Proof.
  intros Hloc Hint. unfold setcol. rewrite decide_True by apply length_fmap.
  rewrite Hloc. destruct df as [cols rs]. cbn [columns rows] in *. do 2 f_equal.
  rewrite zip_with_fmap_r, zip_with_diag.
  rewrite <- (list_fmap_id rs) at 2. apply Forall_fmap_ext_1.
  eapply Forall_impl; [done|]. intros [l r] Hr. simpl in *. f_equal.
  apply list_insert_id. unfold cell in *.
  by destruct (r !! i).
Qed.

Lemma forallb_is_int col : forallb is_int col = true → Forall (λ v, is_int v = true) col.
Proof.
  intros H. apply Is_true_true, forallb_True in H.
  eapply Forall_impl; [done|]. intros v Hv. by apply Is_true_true.
Qed.

Lemma existsb_is_str_ints col :
  Forall (λ v, is_int v = true) col → existsb is_str col = false.
Proof.
  induction 1 as [|v col Hv _ IH]; [done|]. simpl. rewrite IH. by destruct v.
Qed.

(** The last four statements of the three CheBI decompressors: coerce the
    Compound ID column, put it back, sort on it, write. *)
Lemma coerce_sort_write df path w w' :
  (ids <- lift (getcol df "Compound ID" ≫= astype_int) ;;
   df1 <- lift (setcol df "Compound ID" ids) ;;
   df2 <- lift (sort_values "Compound ID" df1) ;;
   to_csv df2 path false) w = (Return (), w') →
  ∃ out i, files w' !! path = Some out
           ∧ get_loc "Compound ID" (header out) = Some i
           ∧ ascending_ints (cell i <$> records out).
Proof.
  intros Hrun.
  apply bind_inv in Hrun as (ids & w1 & Hids & Hrun). apply lift_inv in Hids as [Hids ->].
  apply outcome_bind_Return in Hids as (col & Hcol & Hids).
  unfold getcol in Hcol. destruct (get_loc "Compound ID" (columns df)) as [i|] eqn:Hloc;
    [|done]. injection Hcol as <-.
  unfold astype_int in Hids.
  destruct (forallb is_int (cell i ∘ snd <$> rows df)) eqn:Hint; [|done].
  injection Hids as <-. apply forallb_is_int in Hint.
  assert (Forall (λ r, is_int (cell i r.2) = true) (rows df)) as Hrows.
  { by apply (proj1 (Forall_fmap (cell i ∘ snd) (λ v, is_int v = true) _)). }
  apply bind_inv in Hrun as (df1 & w1 & Hdf1 & Hrun). apply lift_inv in Hdf1 as [Hdf1 ->].
  rewrite (setcol_same df _ i Hloc Hrows) in Hdf1. injection Hdf1 as <-.
  apply bind_inv in Hrun as (df2 & w1 & Hdf2 & Hrun). apply lift_inv in Hdf2 as [Hdf2 ->].
  unfold sort_values in Hdf2. rewrite Hloc in Hdf2. cbv zeta in Hdf2.
  rewrite (existsb_is_str_ints _ Hint), andb_false_r in Hdf2. injection Hdf2 as <-.
  unfold to_csv in Hrun. injection Hrun as <-.
  cbn [files csv_of columns rows]. eexists _, i. split; [apply lookup_insert_eq|].
  cbn [header records]. split; [done|].
  exists (int_of ∘ cell i ∘ snd <$> merge_sort (row_le i) (rows df)).
  assert (Forall (λ r, is_int (cell i r.2) = true) (merge_sort (row_le i) (rows df)))
    as Hsorted_int.
  { by rewrite merge_sort_Permutation. }
  split.
  - rewrite <- !list_fmap_compose. apply Forall_fmap_ext_1.
    eapply Forall_impl; [done|]. intros r Hr. simpl. by apply is_int_VInt.
  - apply Sorted_row_le_ints; [done|]. apply Sorted_merge_sort. apply _.
Qed.

Ltac step_bind H x :=
  let w := fresh "w" in
  let Hx := fresh "H" x in
  apply bind_inv in H as (x & w & Hx & H);
  first [apply lift_inv in Hx as [Hx ->] | idtac].

Lemma decompressCheBINames_sorted :
  sorted_by_key synonyms.decompressCheBINames "./chebiNames.csv" "Compound ID".
Proof.
  intros w w' Hrun. unfold synonyms.decompressCheBINames in Hrun.
  step_bind Hrun names0. step_bind Hrun names1. step_bind Hrun names2.
  by eapply coerce_sort_write.
Qed.

Lemma decompressCheBIFormulas_sorted :
  sorted_by_key synonyms.decompressCheBIFormulas "./chebiFormulas.csv" "Compound ID".
Proof.
  intros w w' Hrun. unfold synonyms.decompressCheBIFormulas in Hrun.
  step_bind Hrun formulas0. step_bind Hrun formulas1. step_bind Hrun formulas2.
  step_bind Hrun type. step_bind Hrun formulas3. step_bind Hrun formulas4.
  by eapply coerce_sort_write.
Qed.

Lemma decompressCheBICAS_sorted :
  sorted_by_key synonyms.decompressCheBICAS "./chebiCAS.csv" "Compound ID".
Proof.
  intros w w' Hrun. unfold synonyms.decompressCheBICAS in Hrun.
  step_bind Hrun cas0. step_bind Hrun cas1. step_bind Hrun cas2.
  step_bind Hrun type. step_bind Hrun cas3. step_bind Hrun cas4.
  by eapply coerce_sort_write.
Qed.

Lemma read_csv_names_inv path names w df w' f :
  files w !! path = Some f →
  read_csv_names path names w = (Return df, w') →
  w' = w ∧ df = DF names (range_index (pad (length names) <$> records f))
  ∧ Forall (λ r, length r ≤ length names) (records f).
Proof.
  intros Hf. unfold read_csv_names, parse. rewrite Hf.
  repeat case_match; try done. intros [= <- <-]. split_and!; [done..|].
  match goal with H : forallb _ _ = true |- _ =>
    apply Is_true_true, forallb_True in H; eapply Forall_impl; [exact H|] end.
  intros r Hr. by apply Is_true_true, Nat.leb_le in Hr.
Qed.

Lemma decompressSynonyms_source_order w w' f :
  files w !! "./cid-synonyms" = Some f →
  synonyms.decompressSynonyms w = (Return (), w') →
  files w' !! "./cid-synonyms.csv"
  = Some (CSV ["ID"; "Synonym"] (pad 2 <$> records f)).
Proof.
  intros Hf Hrun. unfold synonyms.decompressSynonyms in Hrun.
  step_bind Hrun synonyms0.
  apply (read_csv_names_inv _ _ _ _ _ f Hf) in Hsynonyms0 as (-> & -> & _).
  unfold to_csv in Hrun. injection Hrun as <-. cbn [files csv_of columns rows].
  by rewrite lookup_insert_eq, range_index_snd.
Qed.

Lemma decompressMass_source_order w w' f :
  files w !! "./cid-mass" = Some f →
  synonyms.decompressMass w = (Return (), w') →
  files w' !! "./cid-mass.csv"
  = Some (CSV ["ID"; "Formula"] (take 2 ∘ pad 4 <$> records f)).
Proof.
  intros Hf Hrun. unfold synonyms.decompressMass in Hrun.
  step_bind Hrun mass0.
  apply (read_csv_names_inv _ _ _ _ _ f Hf) in Hmass0 as (-> & -> & Hlen).
  step_bind Hrun mass1. injection Hmass1 as <-.
  step_bind Hrun mass2. injection Hmass2 as <-.
  unfold to_csv in Hrun. injection Hrun as <-. cbn [files csv_of columns rows].
  rewrite lookup_insert_eq. do 2 f_equal. cbn [length].
  set (recs := pad 4 <$> records f).
  assert (Forall (λ r, length r = 4) recs) as Hfour.
  { apply (proj2 (Forall_fmap (pad 4) _ _)).
    eapply Forall_impl; [exact Hlen|]. intros r Hr. simpl. by apply length_pad. }
  rewrite (list_fmap_compose (pad 4) (take 2)). fold recs.
  rewrite <- (range_index_snd recs) at 2.
  rewrite <- !list_fmap_compose. apply Forall_fmap_ext_1.
  assert (Forall (λ x : Z * list value, length x.2 = 4) (range_index recs)) as Hrows.
  { apply (proj1 (Forall_fmap snd (λ c, length c = 4) _)). by rewrite range_index_snd. }
  eapply Forall_impl; [exact Hrows|]. intros [l r] Hr. simpl in Hr.
  by destruct r as [|a [|b [|c [|d [|e r]]]]].
Qed.

(** C2.  The three CheBI decompressors coerce the Compound ID to integer and
    sort on it: whenever one of them returns, the file it wrote has the
    Compound ID as a column of integers in non-decreasing order.
    [decompressSynonyms] and [decompressMass] neither coerce nor sort: they
    write the records of the dump in the order of the dump. *)
Theorem CheBI_decompressors_sorted :
  sorted_by_key synonyms.decompressCheBINames "./chebiNames.csv" "Compound ID"
  ∧ sorted_by_key synonyms.decompressCheBIFormulas "./chebiFormulas.csv" "Compound ID"
  ∧ sorted_by_key synonyms.decompressCheBICAS "./chebiCAS.csv" "Compound ID"
  ∧ (∀ w w' f,
       files w !! "./cid-synonyms" = Some f →
       synonyms.decompressSynonyms w = (Return (), w') →
       files w' !! "./cid-synonyms.csv"
       = Some (CSV ["ID"; "Synonym"] (pad 2 <$> records f)))
  ∧ (∀ w w' f,
       files w !! "./cid-mass" = Some f →
       synonyms.decompressMass w = (Return (), w') →
       files w' !! "./cid-mass.csv"
       = Some (CSV ["ID"; "Formula"] (take 2 ∘ pad 4 <$> records f))).
Proof.
  split_and!.
  - apply decompressCheBINames_sorted.
  - apply decompressCheBIFormulas_sorted.
  - apply decompressCheBICAS_sorted.
  - apply decompressSynonyms_source_order.
  - apply decompressMass_source_order.
Qed.

(** Two names under the Compound IDs 7 and 3: written under 3 and 7. *)
Lemma decompressCheBINames_sample :
  ∃ w' out i,
    synonyms.decompressCheBINames names_3star_world = (Return (), w')
    ∧ files w' !! "./chebiNames.csv" = Some out
    ∧ get_loc "Compound ID" (header out) = Some i
    ∧ ascending_ints (cell i <$> records out).
Proof.
  assert (synonyms.decompressCheBINames names_3star_world
          = (Return (), (synonyms.decompressCheBINames names_3star_world).2)) as Hrun
    by (vm_compute; reflexivity).
  destruct (proj1 CheBI_decompressors_sorted _ _ Hrun) as (out & i & Hout & Hloc & Hasc).
  exists (synonyms.decompressCheBINames names_3star_world).2, out, i.
  split_and!; [exact Hrun | exact Hout | exact Hloc | exact Hasc].
Defined.

(** A synonym dump with the IDs 2, 1 is written with the IDs 2, 1. *)
Lemma decompressSynonyms_not_sorted :
  ∃ w',
    synonyms.decompressSynonyms unsorted_world = (Return (), w')
    ∧ files w' !! "./cid-synonyms.csv"
      = Some (CSV ["ID"; "Synonym"]
                  [[VInt 2; VStr "ethanol"]; [VInt 1; VStr "water"]])
    ∧ ¬ ascending_ints [VInt 2; VInt 1].
Proof.
  eexists. split_and!.
  - by vm_compute.
  - by vm_compute.
  - intros (ks & Hks & Hsorted).
    destruct ks as [|k1 [|k2 [|k3 ks]]]; simplify_eq/=.
    apply Sorted_inv in Hsorted as [_ Hhd]. apply HdRel_inv in Hhd. lia.
Qed.

(** * Further properties of the script *)

(** ** filter *)

Lemma filter_snd {L A} (P : A → Prop) `{!∀ x, Decision (P x)} (l : list (L * A)) :
  snd <$> base.filter (λ p, P p.2) l = base.filter P (snd <$> l).
Proof.
  induction l as [|x l IH]; [done|].
  rewrite fmap_cons, !filter_cons. cbn [snd].
  destruct (decide (P x.2)); [rewrite fmap_cons|]; by rewrite IH.
Qed.

(** On a table whose Synonyms are all texts [filter] returns, and the
    records it writes are, behind their index label, the records read whose
    Synonym has no occurrence of CHEMBL, in the order read. *)
Theorem filter_removes_marked_rows w f i :
  files w !! "./cid-synonyms01.csv" = Some f →
  well_formed f →
  get_loc "Synonym" (header f) = Some i →
  Forall (λ r, is_str (cell i r) = true) (records f) →
  let recs := pad (length (header f)) <$> records f in
  ∃ out,
    synonyms.filter w =
      (Return (),
       MkWorld (<["./cid-synonyms01.csv" := out]> (files w)) (stores w) (handles w))
    ∧ drop 1 <$> records out
      = base.filter (λ r, is_chembl (cell i r) = false) recs
    ∧ (∀ r s, cell i r = VStr s →
         is_chembl (cell i r) = true ↔ ∃ pre post, s = pre +:+ "CHEMBL" +:+ post).
Proof.
  intros Hf Hwf Hloc Hstr recs. eexists. split; [by apply (filter_run w f i)|].
  cbn [records]. fold recs. split.
  - rewrite <- list_fmap_compose.
    rewrite <- (range_index_snd recs) at 2.
    by rewrite <- (filter_snd (λ r, is_chembl (cell i r) = false)).
  - intros r s ->. simpl. apply contains_spec.
Qed.

Lemma filter_removes_marked_rows_sample :
  well_formed synonyms01_csv
  ∧ ∃ out,
      synonyms.filter synonyms01_world =
        (Return (),
         MkWorld (<["./cid-synonyms01.csv" := out]> (files synonyms01_world)) ∅ [])
      ∧ drop 1 <$> records out = [[VInt 7; VStr "ethanol"]].
Proof.
  assert (well_formed synonyms01_csv) as Hwf by (split; [done | repeat constructor]).
  split; [done|].
  destruct (filter_removes_marked_rows synonyms01_world synonyms01_csv 1
              eq_refl Hwf eq_refl) as (out & Hrun & Hrecs & _).
  { repeat constructor. }
  exists out. split; [exact Hrun | exact Hrecs].
Defined.

Lemma filter_loop_raises cols i :
  get_loc "Synonym" cols = Some i →
  ∀ todo pre,
    NoDup (fst <$> (pre ++ todo)) →
    Exists (λ r, is_str (cell i r.2) = false) todo →
    for_each (λ (batch : DataFrame) (it : Z * Series),
                let '(index, row) := it in
                synonym ← getitem row "Synonym";
                hit ← py_in "CHEMBL" synonym;
                if (hit : bool) then drop_index index batch else Return batch)
      (DF cols (pre ++ todo))
      ((λ r, (r.1, MkSeries cols r.2)) <$> todo)
    = Raise TypeError.
Proof.
  intros Hloc. induction todo as [|r todo IH]; intros pre Hnd Hex.
  { by apply Exists_nil in Hex. }
  rewrite fmap_cons. cbn [for_each]. cbn beta iota. cbn [fst snd].
  rewrite (getitem_loc _ _ _ _ Hloc). cbn [mbind outcome_bind].
  destruct (cell i r.2) as [s| |] eqn:Hcell; [|done|done].
  apply Exists_cons in Hex as [Hr|Hex]; [by rewrite Hcell in Hr|].
  cbn [py_in mbind outcome_bind].
  destruct (contains "CHEMBL" s).
  - rewrite drop_index_current by done. cbn [mbind outcome_bind].
    apply IH; [by eapply NoDup_labels_drop | done].
  - cbn [mbind outcome_bind].
    specialize (IH (pre ++ [r])). rewrite <- !app_assoc in IH. by apply IH.
Qed.

(** A Synonym that is not a text (a missing one, a number) makes the test
    [in] raise: [filter] raises TypeError and leaves every file as it was. *)
Theorem filter_non_text_raises w f i :
  files w !! "./cid-synonyms01.csv" = Some f →
  well_formed f →
  get_loc "Synonym" (header f) = Some i →
  Exists (λ r, is_str (cell i r) = false) (records f) →
  synonyms.filter w = (Raise TypeError, w).
Proof.
  intros Hf Hwf Hloc Hex. unfold synonyms.filter.
  erewrite bind_Return by (by apply read_csv_well_formed).
  unfold iterrows, frame_of. cbn [columns rows].
  pose proof (filter_loop_raises (header f) i Hloc
                (range_index (pad (length (header f)) <$> records f)) []) as Hloop.
  cbn [app] in Hloop.
  erewrite bind_Raise; [done|]. unfold lift. rewrite Hloop; [done| |].
  - apply range_index_NoDup.
  - apply (proj1 (Exists_fmap snd (λ c, is_str (cell i c) = false) _)).
    rewrite range_index_snd.
    apply (proj2 (Exists_fmap (pad _) (λ c, is_str (cell i c) = false) _)).
    eapply Exists_impl; [done|]. intros r Hr. simpl. by rewrite cell_pad.
Qed.

Lemma filter_non_text_raises_sample :
  well_formed missing_synonym_csv
  ∧ synonyms.filter missing_synonym_world = (Raise TypeError, missing_synonym_world).
Proof.
  assert (well_formed missing_synonym_csv) as Hwf by (split; [done | repeat constructor]).
  split; [done|].
  apply (filter_non_text_raises missing_synonym_world missing_synonym_csv 1
           eq_refl Hwf eq_refl).
  apply Exists_cons_tl, Exists_cons_hd. reflexivity.
Defined.

(** ** A table without its Name column *)

(** [lowercaseNames] reads the column as a whole and raises KeyError on any
    table without a Name column.  [removeDuplicates] reads the Name row by
    row: it raises KeyError when the table has a record, and writes the empty
    table back when it has none.  A call that raises writes nothing. *)
Theorem missing_Name_column w input f :
  files w !! input = Some f →
  well_formed f →
  get_loc "Name" (header f) = None →
  synonyms.lowercaseNames input w = (Raise KeyError, w)
  ∧ (records f ≠ [] → synonyms.removeDuplicates input w = (Raise KeyError, w))
  ∧ (records f = [] →
     synonyms.removeDuplicates input w =
       (Return (),
        MkWorld (<["./chebiChemicalsCASSet.csv" := CSV (header f) []]> (files w))
                (stores w) (handles w))).
Proof.
  intros Hf Hwf Hloc. split_and!.
  - unfold synonyms.lowercaseNames.
    erewrite bind_Return by (by apply read_csv_well_formed).
    erewrite bind_Raise; [done|]. unfold lift, getcol, frame_of. cbn [columns].
    by rewrite Hloc.
  - intros Hne. unfold synonyms.removeDuplicates.
    erewrite bind_Return by (by apply read_csv_well_formed).
    erewrite bind_Raise; [done|]. unfold lift, iterrows, frame_of. cbn [columns rows].
    destruct (records f) as [|r rs]; [done|]. cbn [fmap list_fmap range_index imap for_each].
    unfold getitem. cbn [s_index]. by rewrite Hloc.
  - intros Hemp. unfold synonyms.removeDuplicates.
    erewrite bind_Return by (by apply read_csv_well_formed).
    unfold iterrows, frame_of. rewrite Hemp. reflexivity.
Qed.

Lemma missing_Name_column_sample :
  well_formed no_name_csv
  ∧ synonyms.lowercaseNames "names.csv" no_name_world = (Raise KeyError, no_name_world)
  ∧ synonyms.removeDuplicates "names.csv" no_name_world = (Raise KeyError, no_name_world).
Proof.
  assert (well_formed no_name_csv) as Hwf by (split; [done | repeat constructor]).
  destruct (missing_Name_column no_name_world "names.csv" no_name_csv
              eq_refl Hwf eq_refl) as (Hlower & Hdup & _).
  split_and!; [done | exact Hlower | apply Hdup; discriminate].
Defined.

(** ** removeDuplicates: no name is lost *)

Section keep_unseen_more.
Context {A : Type} (key : A → string).

Lemma keep_unseen_covers seen l x :
  x ∈ l → key x ∈ seen ∨ ∃ y, y ∈ keep_unseen key seen l ∧ key y = key x.
Proof.
  revert seen. induction l as [|z l IH]; intros seen Hx; [by apply elem_of_nil in Hx|].
  simpl. apply elem_of_cons in Hx as [->|Hx].
  - destruct (decide (key z ∈ seen)); [by left|].
    right. exists z. split; [left | done].
  - destruct (decide (key z ∈ seen)) as [Hz|Hz]; [by apply IH|].
    destruct (IH (seen ∪ {[key z]}) Hx) as [Hin|(y & Hy & Hk)].
    + apply elem_of_union in Hin as [Hin|Hin]; [by left|].
      apply elem_of_singleton in Hin. right. exists z. split; [left | done].
    + right. exists y. split; [by right | done].
Qed.

Lemma keep_unseen_distinct seen l :
  NoDup (key <$> l) → (∀ x, x ∈ l → key x ∉ seen) → keep_unseen key seen l = l.
Proof.
  revert seen. induction l as [|z l IH]; intros seen Hnd Hfresh; [done|].
  simpl. rewrite fmap_cons in Hnd. apply NoDup_cons in Hnd as [Hz Hnd].
  rewrite decide_False by (apply Hfresh; left). f_equal.
  apply IH; [done|]. intros x Hx Hin.
  apply elem_of_union in Hin as [Hin|Hin].
  - apply (Hfresh x); [by right | done].
  - apply elem_of_singleton in Hin. apply Hz. rewrite <- Hin.
    by apply list_elem_of_fmap_2.
Qed.

End keep_unseen_more.

(** [removeDuplicates] loses no name: every record read has a written record
    with the same Name up to case.  A table whose Names are pairwise
    different up to case is written as it was read. *)
Theorem removeDuplicates_keeps_every_name w input f i :
  files w !! input = Some f →
  well_formed f →
  get_loc "Name" (header f) = Some i →
  let recs := pad (length (header f)) <$> records f in
  ∃ kept,
    synonyms.removeDuplicates input w =
      (Return (),
       MkWorld (<["./chebiChemicalsCASSet.csv" := CSV (header f) kept]> (files w))
               (stores w) (handles w))
    ∧ (∀ r, r ∈ recs → ∃ r', r' ∈ kept ∧ lowered i r' = lowered i r)
    ∧ (NoDup (lowered i <$> recs) → kept = recs).
Proof.
  intros Hf Hwf Hloc recs. exists (first_occurrences (lowered i) recs).
  split; [by apply removeDuplicates_run|].
  rewrite <- keep_unseen_first_occurrences. split.
  - intros r Hr. destruct (keep_unseen_covers (lowered i) ∅ recs r Hr) as [Hin|Hy]; [|done].
    by apply not_elem_of_empty in Hin.
  - intros Hnd. apply keep_unseen_distinct; [done|]. intros x _. apply not_elem_of_empty.
Qed.

Lemma removeDuplicates_keeps_every_name_sample :
  well_formed distinct_names_csv
  ∧ synonyms.removeDuplicates "names.csv" distinct_names_world =
      (Return (),
       MkWorld (<["./chebiChemicalsCASSet.csv" := distinct_names_csv]>
                  (files distinct_names_world)) ∅ []).
Proof.
  assert (well_formed distinct_names_csv) as Hwf by (split; [done | repeat constructor]).
  split; [done|].
  destruct (removeDuplicates_keeps_every_name distinct_names_world "names.csv"
              distinct_names_csv 1 eq_refl Hwf eq_refl) as (kept & Hrun & _ & Hsame).
  rewrite Hrun. rewrite Hsame; [reflexivity|].
  apply (bool_decide_unpack _). vm_compute. exact I.
Defined.

(** ** lowercaseNames: names up to case *)







(** ** makeDatabase: errors and what is left alone *)







(** The file is read before the store is opened: when reading raises
    (no such file, an empty file, a record with too many fields), the call
    raises the same way with everything as it was, no store created and no
    connection opened. *)
Theorem makeDatabase_read_failure input output name w :
  (files w !! input = None →
   synonyms.makeDatabase input output name w = (Raise FileNotFoundError, w))
  ∧ (∀ e w', synonyms.makeDatabase input output name w = (Raise e, w') →
       e ≠ OperationalError → w' = w).
Proof.
  split.
  - intros Hnone. unfold synonyms.makeDatabase, bind, read_csv. by rewrite Hnone.
  - intros e w'. unfold synonyms.makeDatabase, bind, read_csv.
    destruct (files w !! input) as [f|]; [|by intros [= <- <-]].
    destruct (parse (header f) (records f)) as [data|e0]; [|by intros [= <- <-]].
    unfold connect, to_sql, close. cbn [files stores handles].
    repeat case_decide; intros [= <- <-]; done.
Qed.

Lemma makeDatabase_read_failure_sample :
  synonyms.makeDatabase "absent.csv" "db" "t" two_rows_world
  = (Raise FileNotFoundError, two_rows_world).
Proof. by apply makeDatabase_read_failure. Defined.

(** [makeDatabase] changes no file, and no table but the one it is given:
    whatever the outcome, every other table of every store is as it was. *)
Theorem makeDatabase_other_tables input output name w o w' :
  synonyms.makeDatabase input output name w = (o, w') →
  files w' = files w
  ∧ ∀ store tname, store ≠ output ∨ tname ≠ name →
      table_of w' store tname = table_of w store tname.
Proof.
  unfold synonyms.makeDatabase, bind, read_csv.
  destruct (files w !! input) as [f|]; [|by intros [= <- <-]].
  destruct (parse (header f) (records f)) as [data|e0]; [|by intros [= <- <-]].
  unfold connect, to_sql, close. cbn [files stores handles].
  rewrite lookup_insert_eq. cbn [from_option id].
  set (db := default ∅ (stores w !! output)).
  assert (∀ t hs store tname, store ≠ output ∨ tname ≠ name →
    table_of (MkWorld (files w)
                (<[output := <[name := t]> db]> (<[output := db]> (stores w))) hs)
      store tname = table_of w store tname) as Hother.
  { intros t hs store tname Hne. unfold table_of. cbn [stores].
    rewrite insert_insert_eq.
    destruct (decide (store = output)) as [->|Hstore].
    - rewrite lookup_insert_eq. simpl. destruct Hne as [?|Hne]; [done|].
      rewrite lookup_insert_ne by done. unfold db.
      destruct (stores w !! output); [done | apply lookup_empty].
    - by rewrite lookup_insert_ne. }
  repeat case_decide; intros [= <- <-]; cbn [files]; (split; [done | apply Hother]).
Qed.

Lemma makeDatabase_other_tables_sample :
  let w' := (synonyms.makeDatabase "in.csv" "db" "t" two_tables_world).2 in
  table_rows w' "db" "t" = [[VInt 9; VStr "Z"]; [VInt 1; VStr "A"]; [VInt 2; VStr "B"]]
  ∧ table_of w' "db" "u" = Some (Table ["Formula"] [[VStr "H2O"]])
  ∧ table_of w' "other.db" "t" = Some (Table ["Name"] []).
Proof.
  intros w'.
  destruct (makeDatabase_other_tables "in.csv" "db" "t" two_tables_world
              (synonyms.makeDatabase "in.csv" "db" "t" two_tables_world).1 w')
    as [_ Hother].
  { unfold w'. by destruct (synonyms.makeDatabase _ _ _ _). }
  split_and!.
  - by vm_compute.
  - rewrite Hother by (right; discriminate). reflexivity.
  - rewrite Hother by (left; discriminate). reflexivity.
Defined.

(** ** mergeCSVCheBI: the joined cell *)

Lemma index_of_rows_records ik iv rs d pre c post :
  snd <$> rs = pre ++ c :: post →
  Forall (λ c', cell ik c' ≠ cell ik c) post →
  index_of_rows ik iv rs d !! cell ik c = Some (cell iv c).
Proof.
  intros Hrs Hpost.
  apply fmap_app_inv in Hrs as (rs1 & rs2 & -> & Hrs2 & ->).
  symmetry in Hrs2. apply fmap_cons_inv in Hrs2 as (x & rs3 & -> & -> & ->).
  apply index_of_rows_last.
  by apply (proj1 (Forall_fmap snd (λ c', cell ik c' ≠ cell ik x.2) _)).
Qed.

(** A Names record whose Compound ID is on record in the Formulas table is
    written with the formula of the last Formulas record under that ID,
    provided that formula is true for Python (a text that is not empty, a
    number that is not zero, a missing value). *)
Theorem mergeCSVCheBI_joins_last_formula w fF fC fN iF vF iC vC j r pre r' post :
  files w !! "./chebiFormulas.csv" = Some fF →
  well_formed fF →
  get_loc "Compound ID" (header fF) = Some iF →
  get_loc "Formula" (header fF) = Some vF →
  files w !! "./chebiCAS.csv" = Some fC →
  well_formed fC →
  get_loc "Compound ID" (header fC) = Some iC →
  get_loc "Accession Number" (header fC) = Some vC →
  files w !! "./chebiNames.csv" = Some fN →
  well_formed fN →
  header fN = ["Compound ID"; "Name"] →
  records fN !! j = Some r →
  records fF = pre ++ r' :: post →
  cell iF r' = cell 0 r →
  Forall (λ c, cell iF c ≠ cell 0 r) post →
  cell 0 r ≠ VNaN →
  truthy (cell vF r') = true →
  ∃ out cas,
    synonyms.mergeCSVCheBI w =
      (Return (),
       MkWorld (<["./chebiChemicalsCAS.csv" := out]> (files w)) (stores w) (handles w))
    ∧ records out !! j = Some (pad 2 r ++ [cell vF r'; cas]).
Proof.
  intros HfF HwF HiF HvF HfC HwC HiC HvC HfN HwN HhN Hj Hrecs Hkey Hpost _ Htrue.
  eexists _, _. split; [by eapply mergeCSVCheBI_run|].
  cbn [records]. rewrite !list_lookup_fmap, Hj. cbn [fmap option_fmap option_map].
  do 3 f_equal. rewrite cell_pad.
  apply merge_cell_truthy; [|done].
  set (n := length (header fF)).
  assert (index_of_rows iF vF (rows (frame_of fF)) ∅ !! cell iF (pad n r')
          = Some (cell vF (pad n r'))) as Hlook.
  { apply (index_of_rows_records iF vF _ ∅ (pad n <$> pre) (pad n r') (pad n <$> post)).
    - unfold frame_of. cbn [rows]. rewrite range_index_snd, Hrecs.
      by rewrite fmap_app, fmap_cons.
    - apply (proj2 (Forall_fmap (pad n) _ _)).
      eapply Forall_impl; [exact Hpost|]. intros c Hc. simpl.
      by rewrite !cell_pad, Hkey. }
  by rewrite !cell_pad, Hkey in Hlook.
Qed.

(** H2O, then CO2 on record for Compound ID 1: A is written with CO2. *)
Lemma mergeCSVCheBI_joins_last_formula_sample :
  ∃ out cas,
    synonyms.mergeCSVCheBI joined_world =
      (Return (),
       MkWorld (<["./chebiChemicalsCAS.csv" := out]> (files joined_world)) ∅ [])
    ∧ records out !! 0 = Some [VInt 1; VStr "A"; VStr "CO2"; cas].
Proof.
  assert (well_formed dup_formulas_csv) as HwF by (split; [done | repeat constructor]).
  assert (well_formed cas_csv) as HwC by (split; [done | repeat constructor]).
  assert (well_formed names_csv) as HwN by (split; [done | repeat constructor]).
  apply (mergeCSVCheBI_joins_last_formula joined_world
           dup_formulas_csv cas_csv names_csv 0 1 0 1 0
           [VInt 1; VStr "A"] [[VInt 1; VStr "H2O"]] [VInt 1; VStr "CO2"]
           [[VInt 2; VStr "NaCl"]]
           eq_refl HwF eq_refl eq_refl eq_refl HwC eq_refl eq_refl eq_refl HwN eq_refl
           eq_refl eq_refl eq_refl).
  - repeat constructor. simpl. discriminate.
  - simpl. discriminate.
  - reflexivity.
Defined.

(** ** What the stages leave alone *)

Lemma reads_only_read_csv path : reads_only (read_csv path).
Proof. intros w. unfold read_csv. by destruct (files w !! path). Qed.

Lemma reads_only_read_csv_names path names : reads_only (read_csv_names path names).
Proof.
  intros w. unfold read_csv_names. destruct (files w !! path); [|done].
  by case_decide.
Qed.

Lemma reads_only_lift {A} (o : outcome A) : reads_only (lift o).
Proof. by intros w. Qed.

Lemma writes_only_to_csv df path index : writes_only path (to_csv df path index).
Proof.
  intros w o w'. unfold to_csv. intros [= <- <-]. cbn [files stores handles].
  split_and!; [done | done | | done].
  intros p Hp. by rewrite lookup_insert_ne.
Qed.

Lemma writes_only_bind {A} path (c : M A) (k : A → M ()) :
  reads_only c → (∀ a, writes_only path (k a)) → writes_only path (bind c k).
Proof.
  intros Hc Hk w o w'. unfold bind. specialize (Hc w).
  destruct (c w) as [[a|e] w1]; simpl in Hc; subst w1.
  - apply Hk.
  - intros [= <- <-]. by split_and!.
Qed.

Ltac writes_only :=
  repeat first
    [ apply writes_only_to_csv
    | apply writes_only_bind;
        [ first [ apply reads_only_read_csv | apply reads_only_read_csv_names
                | apply reads_only_lift ]
        | intros ? ] ].

(** Every stage that writes a CSV computes first and writes last, in one
    [to_csv]: it changes no file but its output, touches no store and no
    connection, and when it raises it has written nothing. *)
Theorem stages_write_only_their_output :
  writes_only "./cid-mass.csv" synonyms.decompressMass
  ∧ writes_only "./cid-synonyms.csv" synonyms.decompressSynonyms
  ∧ writes_only "./chebiNames.csv" synonyms.decompressCheBINames
  ∧ writes_only "./chebiFormulas.csv" synonyms.decompressCheBIFormulas
  ∧ writes_only "./chebiCAS.csv" synonyms.decompressCheBICAS
  ∧ writes_only "./cid-synonyms01.csv" synonyms.filter
  ∧ (∀ input, writes_only "./chebiChemicalsCASSet.csv" (synonyms.removeDuplicates input))
  ∧ (∀ input, writes_only "./chebiChemicalsCASSetUPPER.csv" (synonyms.lowercaseNames input))
  ∧ writes_only "./chebiChemicalsCAS.csv" synonyms.mergeCSVCheBI.
Proof.
  split_and!; try intros input.
  - unfold synonyms.decompressMass. writes_only.
  - unfold synonyms.decompressSynonyms. writes_only.
  - unfold synonyms.decompressCheBINames. writes_only.
  - unfold synonyms.decompressCheBIFormulas. writes_only.
  - unfold synonyms.decompressCheBICAS. writes_only.
  - unfold synonyms.filter. writes_only.
  - unfold synonyms.removeDuplicates. writes_only.
  - unfold synonyms.lowercaseNames. writes_only.
  - unfold synonyms.mergeCSVCheBI. writes_only.
Qed.

(** The merge of [zero_world] leaves the three tables it read as they were. *)
Lemma stages_write_only_their_output_sample :
  let w' := (synonyms.mergeCSVCheBI zero_world).2 in
  files w' !! "./chebiNames.csv" = Some names_csv
  ∧ files w' !! "./chebiFormulas.csv" = Some zero_formula_csv
  ∧ stores w' = ∅.
Proof.
  intros w'.
  destruct stages_write_only_their_output as (_ & _ & _ & _ & _ & _ & _ & _ & Hmerge).
  destruct (Hmerge zero_world (synonyms.mergeCSVCheBI zero_world).1 w')
    as (Hstores & _ & Hfiles & _).
  { unfold w'. by destruct (synonyms.mergeCSVCheBI zero_world). }
  split_and!.
  - rewrite Hfiles by discriminate. reflexivity.
  - rewrite Hfiles by discriminate. reflexivity.
  - exact Hstores.
Defined.

(** ** The CheBI decompressors: what is written *)





























